(** * WebEmail-Scraper: a shallow embedding of [app.py]

    The development follows the layout of the program:
    - [PyStr]: the [str] and [list] operations of Python the program uses;
    - [Re]: a backtracking matcher for the fragment of [re] the program uses;
    - the Email Extractor [find_emails_on_page];
    - the task registry, its lock and [log_progress];
    - the Crawl Engine [scrape_website_emails_for_task];
    - the Task Runner [run_scraping_task_thread];
    - the progress stream and the download route.

    Characters are 8-bit [ascii] values and text is [string].  The classes
    of the email pattern, the keywords and the blocklists are all ASCII, and
    a character outside ASCII acts in the program as any other character
    outside the classes does. *)

From Stdlib Require Import ZArith Ascii.
From stdpp Require Import gmap strings list sorting pretty.

Local Open Scope Z_scope.

(** ** Results of operations that may raise *)

(** A Python expression either yields a value or raises an exception, of
    which the program only ever uses the text ([str(e)]). *)
Inductive res (A : Type) : Type :=
| Ok (a : A)
| Err (e : string).
Arguments Ok {A} a.
Arguments Err {A} e.

(** ** Python string and list operations *)

Module PyStr.

(** The line feed used by the event-stream framing. *)
Definition LF : string := String (ascii_of_nat 10) "".

Definition is_upper (c : ascii) : bool :=
  (Ascii.leb "A" c && Ascii.leb c "Z")%char.
Definition is_lower (c : ascii) : bool :=
  (Ascii.leb "a" c && Ascii.leb c "z")%char.
Definition is_digit (c : ascii) : bool :=
  (Ascii.leb "0" c && Ascii.leb c "9")%char.
Definition is_alpha (c : ascii) : bool := is_upper c || is_lower c.

Definition lower_char (c : ascii) : ascii :=
  if is_upper c then ascii_of_nat (nat_of_ascii c + 32) else c.

(** [s.lower()], on ASCII letters *)
Fixpoint lower (s : string) : string :=
  match s with
  | "" => ""
  | String c s' => String (lower_char c) (lower s')
  end.

(** [s.startswith(p)] *)
Fixpoint startswith (p s : string) : bool :=
  match p, s with
  | "", _ => true
  | String a p', String b s' => if Ascii.eqb a b then startswith p' s' else false
  | String _ _, "" => false
  end.

(** [s.endswith(p)]: some suffix of [s] is [p]. *)
Fixpoint endswith (p s : string) : bool :=
  String.eqb p s ||
  match s with
  | "" => false
  | String _ s' => endswith p s'
  end.

(** [sub in s] *)
Fixpoint contains (sub s : string) : bool :=
  startswith sub s ||
  match s with
  | "" => false
  | String _ s' => contains sub s'
  end.

(** [s.count(sub)] for a non-empty [sub]: occurrences are counted from the
    left and do not overlap; [skip] characters of the occurrence just
    counted are still to be passed. *)
Fixpoint count_go (sub : string) (skip : nat) (s : string) : nat :=
  match s with
  | "" => 0%nat
  | String _ s' =>
      match skip with
      | S k => count_go sub k s'
      | O =>
          if startswith sub s
          then S (count_go sub (String.length sub - 1) s')
          else count_go sub 0 s'
      end
  end.
Definition count (sub s : string) : nat := count_go sub 0 s.

(** [s.split(sep)] for a non-empty [sep].  The head of the result is the
    field that is being read. *)
Fixpoint split_go (sep : string) (skip : nat) (s : string) : list string :=
  match s with
  | "" => [""]
  | String c s' =>
      match skip with
      | S k => split_go sep k s'
      | O =>
          if startswith sep s
          then "" :: split_go sep (String.length sep - 1) s'
          else match split_go sep 0 s' with
               | f :: fs => String c f :: fs
               | [] => [String c ""]
               end
      end
  end.
Definition split (sep s : string) : list string := split_go sep 0 s.

(** [l[i]], with Python's negative indices and its [IndexError]. *)
Definition index {A} (l : list A) (i : Z) : res A :=
  let n := Z.of_nat (length l) in
  let j := if i <? 0 then n + i else i in
  if (j <? 0) || (n <=? j) then Err "list index out of range"
  else match l !! Z.to_nat j with
       | Some x => Ok x
       | None => Err "list index out of range"
       end.

(** [l[i:]] *)
Definition slice_from {A} (l : list A) (i : Z) : list A :=
  let n := Z.of_nat (length l) in
  let j := if i <? 0 then Z.max 0 (n + i) else i in
  drop (Z.to_nat j) l.

(** [sep.join(l)] *)
Fixpoint join (sep : string) (l : list string) : string :=
  match l with
  | [] => ""
  | [x] => x
  | x :: l' => x +:+ sep +:+ join sep l'
  end.

(** [sorted(l)] on strings: ascending in the order of [str], which
    compares character codes lexicographically. *)
Definition sorted (l : list string) : list string := merge_sort String.le l.

(** [c.isspace()] for a character below 256. *)
Definition is_space (c : ascii) : bool :=
  let n := nat_of_ascii c in
  ((9 <=? n) && (n <=? 13) || (28 <=? n) && (n <=? 32)
   || (n =? 133) || (n =? 160))%nat.

(** The line boundaries of [splitlines] below 256: LF, VT, FF, CR, FS, GS,
    RS and NEL. *)
Definition is_linebreak (c : ascii) : bool :=
  let n := nat_of_ascii c in
  ((10 <=? n) && (n <=? 13) || (28 <=? n) && (n <=? 30) || (n =? 133))%nat.

(** [s.lstrip()], [s.rstrip()] and [s.strip()] *)
Fixpoint lstrip (s : string) : string :=
  match s with
  | "" => ""
  | String c s' => if is_space c then lstrip s' else s
  end.
Fixpoint rstrip (s : string) : string :=
  match s with
  | "" => ""
  | String c s' =>
      match rstrip s' with
      | "" => if is_space c then "" else String c ""
      | r => String c r
      end
  end.
Definition strip (s : string) : string := rstrip (lstrip s).

(** [s.splitlines()]: the lines without their boundaries, CR LF being one
    boundary; a boundary at the end opens no further line.  The head of the
    result is the line that is being read; [after_cr] tells that the
    character before was a CR that closed a line. *)
Fixpoint splitlines_go (after_cr : bool) (s : string) : list string :=
  match s with
  | "" => []
  | String c s' =>
      if after_cr && Ascii.eqb c (ascii_of_nat 10) then splitlines_go false s'
      else if is_linebreak c
      then "" :: splitlines_go (Ascii.eqb c (ascii_of_nat 13)) s'
      else match splitlines_go false s' with
           | line :: lines => String c line :: lines
           | [] => [String c ""]
           end
  end.
Definition splitlines (s : string) : list string := splitlines_go false s.

End PyStr.

(** ** The fragment of [re] used by the program *)

Module Re.

(** A matcher tries to match at the start of its input and returns the
    matched text with the rest of the input.  Matchers are written in
    continuation-passing style, the continuation being the rest of the
    pattern, so that a greedy quantifier gives characters back one by one
    when the rest of the pattern fails. *)
Definition matcher : Type := string → option (string * string).

Definition m_eps : matcher := λ s, Some ("", s).

Definition consume (c : ascii) (r : option (string * string)) :
    option (string * string) :=
  match r with
  | Some (m, rest) => Some (String c m, rest)
  | None => None
  end.

(** One character of a class, then [k]. *)
Definition m_set (cls : ascii → bool) (k : matcher) : matcher := λ s,
  match s with
  | String c s' => if cls c then consume c (k s') else None
  | "" => None
  end.

(** [cls*] (greedy), then [k]. *)
Fixpoint m_star (cls : ascii → bool) (k : matcher) (s : string) :
    option (string * string) :=
  match s with
  | String c s' =>
      if cls c
      then match consume c (m_star cls k s') with
           | Some r => Some r
           | None => k s
           end
      else k s
  | "" => k s
  end.

(** [cls+] (greedy), then [k]. *)
Definition m_plus (cls : ascii → bool) (k : matcher) : matcher :=
  m_set cls (m_star cls k).

(** [re.findall(re, s)] for a pattern without groups that matches no empty
    text: the leftmost match at each position, the scan resuming where the
    match ended ([skip] characters of the last match are still to be
    passed). *)
Fixpoint findall_go (re : matcher) (skip : nat) (s : string) : list string :=
  match s with
  | "" => []
  | String _ s' =>
      match skip with
      | S k => findall_go re k s'
      | O =>
          match re s with
          | Some (m, _) => m :: findall_go re (String.length m - 1) s'
          | None => findall_go re 0 s'
          end
      end
  end.
Definition findall (re : matcher) (s : string) : list string :=
  findall_go re 0 s.

End Re.

(** ** Email Extractor *)

(** [[a-zA-Z0-9._%+-]] *)
Definition local_char (c : ascii) : bool :=
  PyStr.is_alpha c || PyStr.is_digit c ||
  bool_decide (c ∈ ["."; "_"; "%"; "+"; "-"]%char).

(** [[a-zA-Z0-9.-]] *)
Definition domain_char (c : ascii) : bool :=
  PyStr.is_alpha c || PyStr.is_digit c || bool_decide (c ∈ ["."; "-"]%char).

(** [[a-zA-Z0-9._%+-]+@[a-zA-Z0-9.-]+\.[a-zA-Z]{2,}] *)
Definition email_regex : Re.matcher :=
  Re.m_plus local_char
    (Re.m_set (Ascii.eqb "@")
       (Re.m_plus domain_char
          (Re.m_set (Ascii.eqb ".")
             (Re.m_set PyStr.is_alpha
                (Re.m_set PyStr.is_alpha
                   (Re.m_star PyStr.is_alpha Re.m_eps)))))).

Definition common_image_extensions : list string :=
  [".png"; ".jpg"; ".jpeg"; ".gif"; ".webp"; ".svg"; ".bmp"; ".tiff"].

Definition false_positive_patterns : list string :=
  ["example.com"; "yourdomain.com"; "email@domain.com"; "sentry.io"].

(** The body of the loop over [emails_found]: [true] when [email_lower] is
    added to [filtered_emails]. *)
Definition email_kept (email_lower : string) : bool :=
  if existsb (λ ext, PyStr.contains ext email_lower) common_image_extensions
  then false
  else if existsb (λ fp, PyStr.contains fp email_lower) false_positive_patterns
  then false
  else if (255 <? String.length email_lower)%nat
          || PyStr.contains " " email_lower
          || negb (PyStr.count "@" email_lower =? 1)%nat
  then false
  else
    match PyStr.split "@" email_lower with
    | [_; domain] =>
        if PyStr.contains "." domain
           && (2 <=? String.length (List.last (PyStr.split "." domain) ""))%nat
        then negb (PyStr.startswith "'" email_lower
                   || PyStr.endswith "'" email_lower)
        else false
    | _ => false
    end.

Definition find_emails_on_page (url content : string) : gset string :=
  let emails_found : gset string :=
    list_to_set (Re.findall email_regex content) in
  set_omap (λ email,
      let email_lower := PyStr.lower email in
      if email_kept email_lower then Some email_lower else None)
    emails_found.

(** ** Configuration *)

Definition MAX_DEPTH : Z := 1.
Definition POLITE_DELAY : Z := 1.
Definition TARGET_PAGE_KEYWORDS : list string :=
  ["about"; "contact"; "support"; "contact-us"; "about-us"; "contactus";
   "aboutus"].
Definition TEMP_DIR : string := "temp_files".

(** ** Task registry *)

Inductive task_status : Type := pending | processing | complete | error.

Global Instance task_status_eq_dec : EqDecision task_status.
Proof. solve_decision. Defined.

(** An entry of the [tasks] dictionary.  The program tests whether the key
    ['progress_messages'] is present, so that field is optional; [None] in
    [filename] and [error_message] is Python's [None]. *)
Record task : Type := Task {
  status : task_status;
  urls : list string;
  progress_messages : option (list string);
  filename : option string;
  error_message : option string;
  last_message_index_sent : Z;
  results_summary : option string
}.

(** What a thread of the program reads and writes: the [tasks] dictionary,
    whether [tasks_lock] is held, the addresses handed to [requests.get] so
    far (oldest first), the files written under [TEMP_DIR] as rows of cells,
    and the lines sent to the [logging] module. *)
Record world : Type := World {
  tasks : gmap string task;
  tasks_lock : bool;
  requests : list string;
  files : gmap string (list (list string));
  logging : list string
}.

Definition set_tasks (f : gmap string task → gmap string task) (w : world) : world :=
  World (f (tasks w)) (tasks_lock w) (requests w) (files w) (logging w).
Definition set_tasks_lock (b : bool) (w : world) : world :=
  World (tasks w) b (requests w) (files w) (logging w).
Definition add_request (url : string) (w : world) : world :=
  World (tasks w) (tasks_lock w) (requests w ++ [url]) (files w) (logging w).
Definition set_file (path : string) (rows : list (list string)) (w : world) : world :=
  World (tasks w) (tasks_lock w) (requests w) (<[path := rows]> (files w))
    (logging w).
Definition add_logging (line : string) (w : world) : world :=
  World (tasks w) (tasks_lock w) (requests w) (files w) (logging w ++ [line]).

(** ** Computations of one thread *)

(** A call returns, raises, blocks for ever on [tasks_lock], or is cut by
    the iteration bound of the model ([OutOfFuel]; the program itself has no
    such bound). *)
Inductive outcome (A : Type) : Type :=
| Return (a : A) (w : world)
| Raise (e : string) (w : world)
| Blocked (w : world)
| OutOfFuel.
Arguments Return {A} a w.
Arguments Raise {A} e w.
Arguments Blocked {A} w.
Arguments OutOfFuel {A}.

Definition M (A : Type) : Type := world → outcome A.

Definition ret {A} (a : A) : M A := λ w, Return a w.
Definition raise {A} (e : string) : M A := λ w, Raise e w.
Definition bind {A B} (m : M A) (f : A → M B) : M B := λ w,
  match m w with
  | Return a w' => f a w'
  | Raise e w' => Raise e w'
  | Blocked w' => Blocked w'
  | OutOfFuel => OutOfFuel
  end.
Definition lift_res {A} (r : res A) : M A :=
  match r with
  | Ok a => ret a
  | Err e => raise e
  end.
Definition modify (f : world → world) : M unit := λ w, Return tt (f w).

Notation "x <- m ;; k" := (bind m (λ x, k))
  (at level 100, m at level 99, k at level 200, right associativity).
Notation "m ;; k" := (bind m (λ _, k))
  (at level 100, k at level 200, right associativity).

(** [try: body except Exception as e: handler(e)] *)
Definition try_except {A} (body : M A) (handler : string → M A) : M A := λ w,
  match body w with
  | Raise e w' => handler e w'
  | o => o
  end.

(** [with tasks_lock: body].  [threading.Lock] is not reentrant: acquiring
    it while it is held blocks, also when the holder is the caller. *)
Definition with_tasks_lock {A} (body : M A) : M A := λ w,
  if tasks_lock w then Blocked w
  else match body (set_tasks_lock true w) with
       | Return a w' => Return a (set_tasks_lock false w')
       | Raise e w' => Raise e (set_tasks_lock false w')
       | Blocked w' => Blocked w'
       | OutOfFuel => OutOfFuel
       end.

Definition append_message (message : string) (t : task) : task :=
  Task (status t) (urls t)
    (Some (default [] (progress_messages t) ++ [message]))
    (filename t) (error_message t) (last_message_index_sent t)
    (results_summary t).

Definition log_progress (task_id message : string) : M unit :=
  with_tasks_lock (λ w,
    match tasks w !! task_id with
    | Some t => Return tt (set_tasks <[task_id := append_message message t]> w)
    | None =>
        Return tt
          (add_logging
             ("Attempted to log progress for non-existent task_id: " +:+ task_id)
             w)
    end).

(** ** Crawl Engine *)

(** What [urlparse] returns, as far as the program looks at it. *)
Record parse_result : Type := ParseResult { scheme : string; netloc : string }.

(** An [<a href=...>] element: its [href] attribute and its
    [get_text(separator=' ')]. *)
Record anchor : Type := Anchor { href : string; link_text : string }.

(** A parsed page: [soup.get_text(separator=' ')] and
    [soup.find_all('a', href=True)] in document order. *)
Record page : Type := Page { visible_text : string; anchors : list anchor }.

(** The local variables of one run of the crawl loop. *)
Record crawl_state : Type := CrawlState {
  visited_urls : gset string;
  emails_collected : gset string;
  urls_to_visit : list (string * nat)
}.

Section CrawlEngine.

(** The collaborators: [urllib.parse.urlparse] and [urljoin], which raise
    [ValueError] on some inputs, and the page fetch, that is
    [requests.get], [raise_for_status] and [BeautifulSoup] together;
    [fetch n url] is the answer to the request for [url] made after [n]
    earlier requests. *)
Context (urlparse : string → res parse_result).
Context (urljoin : string → string → res string).
Context (fetch : nat → string → res page).

Definition is_valid_url (url : string) : res bool :=
  match urlparse url with
  | Ok parsed =>
      Ok (negb (bool_decide (scheme parsed = ""))
          && negb (bool_decide (netloc parsed = ""))
          && negb (bool_decide (scheme parsed ∈ ["mailto"; "tel"])))
  | Err e => Err e
  end.

(** [requests.get(current_url, ...)] and the parse of the answer. *)
Definition http_get (url : string) : M (res page) := λ w,
  Return (fetch (length (requests w)) url) (add_request url w).

(** [href.split('mailto:')[1].split('?')[0]] *)
Definition email_in_mailto (href : string) : res string :=
  match PyStr.index (PyStr.split "mailto:" href) 1 with
  | Ok after => PyStr.index (PyStr.split "?" after) 0
  | Err e => Err e
  end.

(** The loop over the anchors that extends [page_text] with the addresses
    of the [mailto:] links. *)
Fixpoint add_mailto_addresses (task_id current_url : string)
    (a_tags : list anchor) (page_text : string) : M string :=
  match a_tags with
  | [] => ret page_text
  | a_tag :: a_tags' =>
      if PyStr.startswith "mailto:" (href a_tag)
      then match email_in_mailto (href a_tag) with
           | Ok address =>
               add_mailto_addresses task_id current_url a_tags'
                 (page_text +:+ " " +:+ address)
           | Err _ =>
               log_progress task_id
                 ("Warning: Malformed mailto link on " +:+ current_url
                  +:+ ": " +:+ href a_tag) ;;
               add_mailto_addresses task_id current_url a_tags' page_text
           end
      else add_mailto_addresses task_id current_url a_tags' page_text
  end.

Definition is_target_link (link : anchor) : bool :=
  let href_attr_lower := PyStr.lower (href link) in
  let link_text_lower := PyStr.lower (link_text link) in
  existsb (λ keyword,
      PyStr.contains keyword href_attr_lower
      || PyStr.contains keyword link_text_lower)
    TARGET_PAGE_KEYWORDS.

(** The loop over the anchors that queues target pages.  It returns the
    queue, [found_target_page_on_current] and, when a collaborator raised,
    the text of the exception, at which the loop stops with the queue as
    it then is. *)
Fixpoint queue_target_pages (task_id current_url base_domain : string)
    (current_processing_depth : nat) (visited : gset string)
    (links : list anchor) (queue : list (string * nat)) (found : bool) :
    M (list (string * nat) * bool * option string) :=
  match links with
  | [] => ret (queue, found, None)
  | link :: links' =>
      let continue_ :=
        queue_target_pages task_id current_url base_domain
          current_processing_depth visited links' in
      if bool_decide (href link = "") then continue_ queue found
      else if is_target_link link then
        match urljoin current_url (href link) with
        | Err e => ret (queue, found, Some e)
        | Ok next_url =>
            match urlparse next_url with
            | Err e => ret (queue, found, Some e)
            | Ok parsed =>
                if bool_decide (netloc parsed = base_domain)
                   && bool_decide (next_url ∉ visited)
                then match is_valid_url next_url with
                     | Err e => ret (queue, found, Some e)
                     | Ok valid =>
                         if valid && bool_decide (next_url ∉ queue.*1)
                         then
                           log_progress task_id
                             ("    Queued target page: " +:+ next_url) ;;
                           continue_
                             (queue ++ [(next_url, S current_processing_depth)])
                             true
                         else continue_ queue found
                     end
                else continue_ queue found
            end
        end
      else continue_ queue found
  end.

Definition page_type (depth : nat) : string :=
  match depth with O => "Homepage" | S _ => "Target Page" end.

(** The part of the loop body under [try], after the element has been
    marked visited; [queue] is [urls_to_visit] without that element. *)
Definition scrape_page (task_id base_domain : string) (max_depth_setting : Z)
    (current_url : string) (current_processing_depth : nat)
    (visited emails : gset string) (queue : list (string * nat)) :
    M crawl_state :=
  response <- http_get current_url ;;
  match response with
  | Err e =>
      log_progress task_id
        ("  Error scraping " +:+ current_url +:+ ": " +:+ e) ;;
      ret (CrawlState visited emails queue)
  | Ok soup =>
      page_text <- add_mailto_addresses task_id current_url (anchors soup)
                     (visible_text soup) ;;
      let emails_on_page := find_emails_on_page current_url page_text in
      (if bool_decide (emails_on_page = ∅) then ret tt
       else log_progress task_id
              ("  Found emails: " +:+ PyStr.join ", " (elements emails_on_page)
               +:+ " on " +:+ current_url)) ;;
      let emails' :=
        if bool_decide (emails_on_page = ∅) then emails
        else emails ∪ emails_on_page in
      if (1 <=? max_depth_setting) && bool_decide (current_processing_depth = O)
      then
        log_progress task_id
          ("  Searching for target pages on " +:+ current_url +:+ "...") ;;
        r <- queue_target_pages task_id current_url base_domain
               current_processing_depth visited (anchors soup) queue false ;;
        match r with
        | (queue', _, Some e) =>
            log_progress task_id
              ("  Error scraping " +:+ current_url +:+ ": " +:+ e) ;;
            ret (CrawlState visited emails' queue')
        | (queue', found, None) =>
            (if found then ret tt
             else log_progress task_id
                    ("  No new target pages found or queued from "
                     +:+ current_url +:+ ".")) ;;
            ret (CrawlState visited emails' queue')
        end
      else ret (CrawlState visited emails' queue)
  end.

(** One pass through the body of [while urls_to_visit]. *)
Definition crawl_iteration (task_id base_domain : string)
    (max_depth_setting : Z) (st : crawl_state) : M crawl_state :=
  match urls_to_visit st with
  | [] => ret st
  | (current_url, current_processing_depth) :: queue =>
      let skip := ret (CrawlState (visited_urls st) (emails_collected st) queue) in
      if bool_decide (current_url ∈ visited_urls st) then skip
      else
        valid <- lift_res (is_valid_url current_url) ;;
        if negb valid then skip
        else
          parsed <- lift_res (urlparse current_url) ;;
          if negb (bool_decide (netloc parsed = base_domain)) then skip
          else
            let visited := visited_urls st ∪ {[current_url]} in
            log_progress task_id
              ("Scraping (" +:+ page_type current_processing_depth +:+ "): "
               +:+ current_url) ;;
            scrape_page task_id base_domain max_depth_setting current_url
              current_processing_depth visited (emails_collected st) queue
  end.

(** [while urls_to_visit: ...], at most [fuel] passes. *)
Fixpoint crawl_loop (fuel : nat) (task_id base_domain : string)
    (max_depth_setting : Z) (st : crawl_state) : M (gset string) :=
  match urls_to_visit st with
  | [] => ret (emails_collected st)
  | _ :: _ =>
      match fuel with
      | O => λ _, OutOfFuel
      | S fuel' =>
          st' <- crawl_iteration task_id base_domain max_depth_setting st ;;
          crawl_loop fuel' task_id base_domain max_depth_setting st'
      end
  end.

Definition initial_crawl_state (base_url : string) : crawl_state :=
  CrawlState ∅ ∅ [(base_url, O)].

Definition scrape_website_emails_for_task (fuel : nat)
    (base_url task_id : string) (max_depth_setting delay : Z) :
    M (gset string) :=
  valid <- lift_res (is_valid_url base_url) ;;
  if negb valid then
    with_tasks_lock (λ w,
      match tasks w !! task_id with
      | Some t =>
          match progress_messages t with
          | Some _ =>
              Return tt
                (set_tasks
                   <[task_id :=
                       append_message ("Skipping invalid base URL: " +:+ base_url) t]>
                   w)
          | None =>
              Return tt
                (add_logging
                   ("Task " +:+ task_id
                    +:+ " not found or progress_messages missing when skipping invalid URL "
                    +:+ base_url) w)
          end
      | None =>
          Return tt
            (add_logging
               ("Task " +:+ task_id
                +:+ " not found or progress_messages missing when skipping invalid URL "
                +:+ base_url) w)
      end) ;;
    ret ∅
  else
    parsed <- lift_res (urlparse base_url) ;;
    let base_domain := netloc parsed in
    log_progress task_id
      ("Starting scrape for: " +:+ base_url +:+ " with depth "
       +:+ pretty max_depth_setting) ;;
    crawl_loop fuel task_id base_domain max_depth_setting
      (initial_crawl_state base_url).

End CrawlEngine.

(** ** Task Runner *)

(** [os.path.join(a, b)] on a POSIX system. *)
Definition os_path_join (a b : string) : string :=
  if PyStr.startswith "/" b then b
  else if bool_decide (a = "") || PyStr.endswith "/" a then a +:+ b
  else a +:+ "/" +:+ b.

(** The dictionary stored by [request_scrape] for a new task. *)
Definition new_task (websites_to_process : list string) : task :=
  Task pending websites_to_process (Some ["Task initiated."]) None None (-1) None.

(** [tasks[task_id][...] = ...]: [KeyError] when the task is missing. *)
Definition update_task (task_id : string) (f : task → task) : M unit := λ w,
  match tasks w !! task_id with
  | Some t => Return tt (set_tasks <[task_id := f t]> w)
  | None => Raise ("'" +:+ task_id +:+ "'") w
  end.

Definition set_processing (t : task) : task :=
  Task processing (urls t) (progress_messages t) (filename t) (error_message t)
    (last_message_index_sent t) (results_summary t).
Definition set_complete (csv_filename summary : string) (t : task) : task :=
  Task complete (urls t) (progress_messages t) (Some csv_filename)
    (error_message t) (last_message_index_sent t) (Some summary).
Definition set_error (e : string) (t : task) : task :=
  Task error (urls t) (progress_messages t) (filename t) (Some e)
    (last_message_index_sent t) (results_summary t).

Definition NO_EMAILS : string := "NO_EMAILS_FOUND_OR_ERROR".

(** The text of the second cell of a row. *)
Definition emails_cell (emails_found_for_site : gset string) : string :=
  if bool_decide (emails_found_for_site = ∅) then NO_EMAILS
  else PyStr.join ", " (PyStr.sorted (elements emails_found_for_site)).

Definition csv_header : list string := ["Website"; "Emails Found"].

(** What [csv.writer] is given: the header and one row per pair. *)
Definition csv_rows (data : list (string * string)) : list (list string) :=
  csv_header :: map (λ row, [row.1; row.2]) data.

Section TaskRunner.

Context (urlparse : string → res parse_result).
Context (urljoin : string → string → res string).
Context (fetch : nat → string → res page).
(** [open(path, mode='w', ...)]: [Err] when the file cannot be opened. *)
Context (open_w : string → res unit).

(** [for i, website_url in enumerate(websites_to_process)], from index
    [i] on, [data] being [all_scraped_data_consolidated]. *)
Fixpoint scrape_sites (fuel : nat) (task_id : string) (total_websites i : nat)
    (websites : list string) (data : list (string * string)) :
    M (list (string * string)) :=
  match websites with
  | [] => ret data
  | website_url :: websites' =>
      log_progress task_id
        ("--- Processing website " +:+ pretty (i + 1)%nat +:+ "/"
         +:+ pretty total_websites +:+ ": " +:+ website_url +:+ " ---") ;;
      emails_found_for_site <-
        scrape_website_emails_for_task urlparse urljoin fetch fuel
          website_url task_id MAX_DEPTH POLITE_DELAY ;;
      (if bool_decide (emails_found_for_site = ∅)
       then log_progress task_id
              ("  No emails found for " +:+ website_url
               +:+ " (or an error occurred).")
       else log_progress task_id
              ("  Successfully scraped "
               +:+ pretty (size emails_found_for_site) +:+ " email(s) from "
               +:+ website_url +:+ ": " +:+ emails_cell emails_found_for_site)) ;;
      scrape_sites fuel task_id total_websites (S i) websites'
        (data ++ [(website_url, emails_cell emails_found_for_site)])
  end.

Definition write_csv (csv_filepath : string) (data : list (string * string)) :
    M unit := λ w,
  match open_w csv_filepath with
  | Ok _ => Return tt (set_file csv_filepath (csv_rows data) w)
  | Err e => Raise e w
  end.

Definition csv_name (task_id : string) : string :=
  "scraped_emails_" +:+ task_id +:+ ".csv".

(** The statements under [try]. *)
Definition scraping_task (fuel : nat) (task_id : string)
    (websites_to_process : list string) : M unit :=
  with_tasks_lock (update_task task_id set_processing) ;;
  data <- scrape_sites fuel task_id (length websites_to_process) 0
            websites_to_process [] ;;
  let csv_filename := csv_name task_id in
  let csv_filepath := os_path_join TEMP_DIR csv_filename in
  write_csv csv_filepath data ;;
  log_progress task_id
    ("Scraping complete. Results saved to server: " +:+ csv_filename) ;;
  with_tasks_lock
    (update_task task_id
       (set_complete csv_filename
          (pretty (length data) +:+ " websites processed."))).

(** The statements under [except Exception as e]. *)
Definition report_error (task_id e : string) : M unit :=
  modify (add_logging ("Error in scraping task " +:+ task_id +:+ ": " +:+ e)) ;;
  with_tasks_lock (λ w,
    match tasks w !! task_id with
    | Some t =>
        (modify (set_tasks <[task_id := set_error e t]>) ;;
         log_progress task_id ("A critical error occurred: " +:+ e)) w
    | None =>
        modify (add_logging
                  ("Task " +:+ task_id
                   +:+ " not found when trying to report error: " +:+ e))
          w
    end).

Definition run_scraping_task_thread (fuel : nat) (task_id : string)
    (websites_to_process : list string) : M unit :=
  try_except (scraping_task fuel task_id websites_to_process)
    (report_error task_id).

End TaskRunner.

(** ** Progress stream *)

(** [f"{x}"] for a value that is a string or [None]. *)
Definition format_opt (x : option string) : string := default "None" x.

Definition sse (text : string) : string :=
  "data: " +:+ text +:+ PyStr.LF +:+ PyStr.LF.

(** One pass through the body of [while True] in [generate]: the observer
    blocks while the lock is held, else it yields [events] and either breaks
    ([None]) or sleeps and goes on with the new [last_sent_idx]. *)
Inductive poll_result : Type :=
| PollBlocked
| PollYield (events : list string) (next : option Z).

Definition poll (task_id : string) (last_sent_idx : Z) (w : world) : poll_result :=
  if tasks_lock w then PollBlocked
  else
    match tasks w !! task_id with
    | None =>
        PollYield [sse ("Error: Task ID " +:+ task_id +:+ " not found.")] None
    | Some current_task =>
        let current_progress_messages :=
          default [] (progress_messages current_task) in
        let new_messages :=
          PyStr.slice_from current_progress_messages (last_sent_idx + 1) in
        let events := map sse new_messages in
        let last_sent_idx' := last_sent_idx + Z.of_nat (length new_messages) in
        match status current_task with
        | complete =>
            PollYield
              (events ++ [sse ("COMPLETE:" +:+ format_opt (filename current_task))])
              None
        | error =>
            PollYield
              (events ++ [sse ("ERROR:" +:+ format_opt (error_message current_task))])
              None
        | _ => PollYield events (Some last_sent_idx')
        end
    end.

(** How a stream stands after the polls considered. *)
Inductive stream_end : Type :=
| Ended
| Waiting (last_sent_idx : Z)
| Stuck.

(** [generate()] run against the registry as the observer finds it each
    time it asks for the lock: the events yielded, in order, and how the
    stream stands.  A world whose lock is held stands for a lock that is
    not released any more; waiting for a lock that is released shows only
    in which world the poll takes place. *)
Fixpoint generate_from (task_id : string) (last_sent_idx : Z)
    (polls : list world) : list string * stream_end :=
  match polls with
  | [] => ([], Waiting last_sent_idx)
  | w :: polls' =>
      match poll task_id last_sent_idx w with
      | PollBlocked => ([], Stuck)
      | PollYield events None => (events, Ended)
      | PollYield events (Some idx) =>
          let r := generate_from task_id idx polls' in
          (events ++ r.1, r.2)
      end
  end.

Definition progress_stream (task_id : string) (polls : list world) :
    list string * stream_end :=
  generate_from task_id (-1) polls.

(** ** Download *)

Inductive fs_access : Type :=
| IsFile (path : string)
| SendFile (path : string).

Inductive http_response : Type :=
| Text (body : string) (code : Z)
| Attachment (path download_name : string).

(** [download_file(filename)] against a file system given by [isfile]; the
    second component lists the file-system operations made. *)
Definition download_file (isfile : string → bool) (filename : string) :
    http_response * list fs_access :=
  if PyStr.contains ".." filename || PyStr.startswith "/" filename
  then (Text "Invalid filename" 400, [])
  else
    let file_path := os_path_join TEMP_DIR filename in
    if negb (isfile file_path)
    then (Text "File not found or access denied." 404, [IsFile file_path])
    else (Attachment file_path filename, [IsFile file_path; SendFile file_path]).

(** ** Submission *)

Inductive submit_response : Type :=
| SubmitError (error : string) (code : Z)
| SubmitAccepted (task_id : string).

(** The loop over [raw_urls] that fills [websites_to_process]. *)
Fixpoint prepare_urls (raw_urls : list string) : list string :=
  match raw_urls with
  | [] => []
  | u :: raw_urls' =>
      let url := PyStr.strip u in
      if bool_decide (url = "") then prepare_urls raw_urls'
      else
        (if PyStr.startswith "http://" url || PyStr.startswith "https://" url
         then url else "http://" +:+ url) :: prepare_urls raw_urls'
  end.

(** [request_scrape()]: [urls_text] is [request.form.get('urls')] and
    [uuid4] is [str(uuid.uuid4())].  The result is the response and, when a
    thread is started, the arguments of [run_scraping_task_thread]. *)
Definition request_scrape (uuid4 : string) (urls_text : option string) :
    M (submit_response * option (string * list string)) :=
  match urls_text with
  | None => ret (SubmitError "Please provide some URLs." 400, None)
  | Some text =>
      if bool_decide (text = "")
      then ret (SubmitError "Please provide some URLs." 400, None)
      else
        let raw_urls := PyStr.splitlines (PyStr.strip text) in
        let websites_to_process := prepare_urls raw_urls in
        if bool_decide (websites_to_process = [])
        then ret (SubmitError "No valid URLs to process." 400, None)
        else
          with_tasks_lock
            (modify (set_tasks <[uuid4 := new_task websites_to_process]>)) ;;
          ret (SubmitAccepted uuid4, Some (uuid4, websites_to_process))
  end.

(** ** A sample environment

    Simple collaborators on which the definitions above can be evaluated. *)

Module Sample.

(** Addresses of the form [scheme://netloc/path]: the scheme is the text
    before [://], the authority runs to the next [/]; like [urlsplit], an
    authority with an opening bracket and no closing one is refused.
    Other strings have a scheme when they contain a colon, and no
    authority. *)
Definition urlparse (url : string) : res parse_result :=
  match PyStr.split "://" url with
  | sch :: rest :: _ =>
      let authority := List.hd "" (PyStr.split "/" rest) in
      if PyStr.contains "[" authority && negb (PyStr.contains "]" authority)
      then Err "Invalid IPv6 URL"
      else Ok (ParseResult sch authority)
  | _ =>
      match PyStr.split ":" url with
      | sch :: _ :: _ => Ok (ParseResult sch "")
      | _ => Ok (ParseResult "" "")
      end
  end.

(** Absolute references are kept, references starting with [/] replace
    the path of the base, others are appended to the base. *)
Definition urljoin (base ref : string) : res string :=
  if PyStr.contains ":" ref then Ok ref
  else
    match urlparse base with
    | Ok p =>
        if PyStr.startswith "/" ref
        then Ok (scheme p +:+ "://" +:+ netloc p +:+ ref)
        else Ok (base +:+ "/" +:+ ref)
    | Err e => Err e
    end.

Definition home : page :=
  Page "Welcome. Write to Info@Site.org"
    [Anchor "/contact" "Contact us";
     Anchor "/blog" "Blog";
     Anchor "mailto:sales@site.org?subject=hi" "Mail";
     Anchor "mailto:" "Write";
     Anchor "http://other.org/about" "About them";
     Anchor "/about" "About";
     Anchor "/contact" "Get in touch"].

Definition contact : page :=
  Page "Phone 123, or help@site.org"
    [Anchor "/about/team" "About the team"; Anchor "/" "Home"].

Definition fetch (n : nat) (url : string) : res page :=
  if bool_decide (url = "http://site.org") then Ok home
  else if bool_decide (url = "http://site.org/contact") then Ok contact
  else Err "404 Client Error: Not Found for url".

Definition open_w (path : string) : res unit := Ok tt.

Definition world0 (task_id : string) (websites : list string) : world :=
  World {[task_id := new_task websites]} false [] ∅ [].

End Sample.

(** ** Definitions used to state the properties *)

(** Every character of [s] satisfies [p]. *)
Fixpoint all_chars (p : ascii → bool) (s : string) : bool :=
  match s with
  | "" => true
  | String c s' => p c && all_chars p s'
  end.

(** The shape of a text matched by [email_regex], lowercased or not. *)
Definition email_shape (m : string) : Prop :=
  ∃ l d t,
    m = l +:+ "@" +:+ d +:+ "." +:+ t
    ∧ l ≠ "" ∧ all_chars local_char l = true
    ∧ d ≠ "" ∧ all_chars domain_char d = true
    ∧ (2 ≤ String.length t)%nat ∧ all_chars PyStr.is_alpha t = true.

(** The Email Extractor without the checks for a space, for exactly one
    [@], for a dot in the domain and a last label of two characters, and
    for a quote at either end: only the image-extension, placeholder and
    length checks are left. *)
Definition email_kept_simplified (email_lower : string) : bool :=
  if existsb (λ ext, PyStr.contains ext email_lower) common_image_extensions
  then false
  else if existsb (λ fp, PyStr.contains fp email_lower) false_positive_patterns
  then false
  else if (255 <? String.length email_lower)%nat then false
  else true.

Definition find_emails_simplified (content : string) : gset string :=
  let emails_found : gset string :=
    list_to_set (Re.findall email_regex content) in
  set_omap (λ email,
      let email_lower := PyStr.lower email in
      if email_kept_simplified email_lower then Some email_lower else None)
    emails_found.

(** No character of [s] is [c]. *)
Definition avoids (c : ascii) (s : string) : Prop :=
  all_chars (λ b, negb (Ascii.eqb c b)) s = true.

(** What the omitted checks look at, on a lowercased candidate. *)
Definition passes_shape_checks (email_lower : string) : Prop :=
  PyStr.contains " " email_lower = false
  ∧ PyStr.count "@" email_lower = 1%nat
  ∧ (∃ l domain,
       PyStr.split "@" email_lower = [l; domain]
       ∧ PyStr.contains "." domain = true
       ∧ (2 ≤ String.length (List.last (PyStr.split "." domain) ""))%nat)
  ∧ PyStr.startswith "'" email_lower = false
  ∧ PyStr.endswith "'" email_lower = false.

(** The registry's log of a task, empty when there is none. *)
Definition log_of (task_id : string) (w : world) : list string :=
  match tasks w !! task_id with
  | Some t => default [] (progress_messages t)
  | None => []
  end.

(** The log only grows from one poll to the next: each poll finds the log
    of the poll before (at first [prev]) extended at its end. *)
Fixpoint logs_grow (task_id : string) (prev : list string) (polls : list world) :
    Prop :=
  match polls with
  | [] => True
  | w :: polls' =>
      prev `prefix_of` log_of task_id w ∧ logs_grow task_id (log_of task_id w) polls'
  end.

(** The observer gets the lock and finds the task, with the given test on
    its status. *)
Definition readable (task_id : string) (P : task_status → Prop) (w : world) : Prop :=
  tasks_lock w = false ∧ ∃ t, tasks w !! task_id = Some t ∧ P (status t).

Definition running (st : task_status) : Prop := st = pending ∨ st = processing.

(** The terminal event a poll ends with, if any. *)
Definition terminal_events (t : task) : list string :=
  match status t with
  | complete => [sse ("COMPLETE:" +:+ format_opt (filename t))]
  | error => [sse ("ERROR:" +:+ format_opt (error_message t))]
  | _ => []
  end.

(** A segment of the name, as a path, is the parent directory. *)
Definition has_parent_segment (filename : string) : Prop :=
  ".." ∈ PyStr.split "/" filename.

(** How the stream stands after a poll that found [t] with [n] log lines. *)
Definition stream_end_after (t : task) (n : nat) : stream_end :=
  match status t with
  | complete | error => Ended
  | _ => Waiting (Z.of_nat n - 1)
  end.

(** [m] run in [w] returns with [Q], or raises with [R]; it neither
    blocks nor exceeds the iteration bound. *)
Definition wp {A} (m : M A) (w : world)
    (Q : A → world → Prop) (R : string → world → Prop) : Prop :=
  match m w with
  | Return a w' => Q a w'
  | Raise e w' => R e w'
  | Blocked _ | OutOfFuel => False
  end.

Definition never : string → world → Prop := λ _ _, False.

(** From [w] to [w'] the thread has requested the addresses [tr], in that
    order, and has otherwise only changed the entries of [tasks] that
    exist. *)
Definition extends (w w' : world) (tr : list string) : Prop :=
  tasks_lock w' = tasks_lock w
  ∧ requests w' = requests w ++ tr
  ∧ files w' = files w
  ∧ dom (tasks w') = dom (tasks w).

(** [u] passes the Validator and has the authority [base_domain]. *)
Definition same_site (urlparse : string → res parse_result)
    (base_domain u : string) : Prop :=
  ∃ p, urlparse u = Ok p ∧ is_valid_url urlparse u = Ok true
       ∧ netloc p = base_domain.

(** The link is a target-page candidate of the page at [current_url] and
    resolves to [next_url], which passes the Validator on the site. *)
Definition target_of (urlparse : string → res parse_result)
    (urljoin : string → string → res string)
    (base_domain current_url : string) (link : anchor) (next_url : string) : Prop :=
  href link ≠ "" ∧ is_target_link link = true
  ∧ urljoin current_url (href link) = Ok next_url
  ∧ same_site urlparse base_domain next_url.

(** No collaborator raises on a target-page candidate of the page. *)
Definition links_resolve (urlparse : string → res parse_result)
    (urljoin : string → string → res string)
    (current_url : string) (links : list anchor) : Prop :=
  ∀ link, link ∈ links → href link ≠ "" → is_target_link link = true →
    ∃ next_url p, urljoin current_url (href link) = Ok next_url
                  ∧ urlparse next_url = Ok p.

(** The call ends, by a return or by an exception, in the world [w']. *)
Definition ends_in {A} (o : outcome A) (w' : world) : Prop :=
  (∃ a, o = Return a w') ∨ (∃ e, o = Raise e w').


(** The calls of the Crawl Engine made for [sites], one after the other
    from the world [w] to [w'], returned the sets [results]; between two
    calls only log lines are written. *)
Inductive crawls_return (urlparse : string → res parse_result)
    (urljoin : string → string → res string) (fetch : nat → string → res page)
    (fuel : nat) (task_id : string) :
    list string → world → list (gset string) → world → Prop :=
| crawls_nil w : crawls_return urlparse urljoin fetch fuel task_id [] w [] w
| crawls_cons site sites w wa emails wb wc results w' :
    extends w wa [] →
    scrape_website_emails_for_task urlparse urljoin fetch fuel site task_id
      MAX_DEPTH POLITE_DELAY wa = Return emails wb →
    extends wb wc [] →
    crawls_return urlparse urljoin fetch fuel task_id sites wc results w' →
    crawls_return urlparse urljoin fetch fuel task_id (site :: sites) w
      (emails :: results) w'.

(** The rows of the artifact for the sites and the sets found for them. *)
Definition data_rows (sites : list string) (results : list (gset string)) :
    list (list string) :=
  zip_with (λ site emails, [site; emails_cell emails]) sites results.

(** *** Predicates on the passes of the crawl loop *)

Section crawl_predicates.

Context (urlparse : string → res parse_result).
Context (urljoin : string → string → res string).
Context (fetch : nat → string → res page).
Context (base_domain : string) (max_depth_setting : Z).

(** The postcondition of the loop that queues target pages: the queue is
    extended by entries of the next depth, new to the queue and to the
    visited set, each on the site; and when no collaborator raises, every
    candidate on the site is then visited or queued. *)
Definition queued_after (current_url : string) (depth : nat)
    (visited : gset string) (links : list anchor) (queue : list (string * nat))
    (w : world) (r : list (string * nat) * bool * option string) (w' : world) :
    Prop :=
  extends w w' []
  ∧ ∃ new,
      r.1.1 = queue ++ new
      ∧ (NoDup queue.*1 → NoDup (queue ++ new).*1)
      ∧ Forall (λ x, x.2 = S depth ∧ (x.1 ∉ visited) ∧ same_site urlparse base_domain (x.1)) new
      ∧ (links_resolve urlparse urljoin current_url links →
         r.2 = None
         ∧ ∀ link next_url, link ∈ links → target_of urlparse urljoin base_domain current_url link next_url →
             next_url ∈ visited ∨ next_url ∈ (queue ++ new).*1).

(** The postcondition of a visit: the address has been requested, the
    visited set is as given, the queue is extended as by
    [queue_target_pages], and by nothing unless the page is at depth 0 and
    the hop limit is 1 or more. *)
Definition page_done (current_url : string) (depth : nat)
    (visited : gset string) (queue : list (string * nat)) (w : world)
    (st' : crawl_state) (w' : world) : Prop :=
  extends w w' [current_url]
  ∧ visited_urls st' = visited
  ∧ ∃ new,
      urls_to_visit st' = queue ++ new
      ∧ (NoDup queue.*1 → NoDup (queue ++ new).*1)
      ∧ Forall (λ x, x.2 = S depth ∧ (x.1 ∉ visited) ∧ same_site urlparse base_domain (x.1)) new
      ∧ (depth ≠ O ∨ max_depth_setting < 1 → new = [])
      ∧ ∀ soup,
          fetch (length (requests w)) current_url = Ok soup →
          depth = O → 1 ≤ max_depth_setting →
          links_resolve urlparse urljoin current_url (anchors soup) →
          ∀ link next_url,
            link ∈ anchors soup → target_of urlparse urljoin base_domain current_url link next_url →
            next_url ∈ visited ∨ next_url ∈ (queue ++ new).*1.

(** What a pass of the loop does with the head [(current_url, depth)] of
    the queue: it drops it with nothing else changed, or it visits it, or
    the Validator raises. *)
Definition passed (st : crawl_state) (current_url : string) (depth : nat)
    (queue : list (string * nat)) (w : world) (st' : crawl_state) (w' : world) :
    Prop :=
  (w' = w
   ∧ st' = CrawlState (visited_urls st) (emails_collected st) queue
   ∧ (current_url ∈ visited_urls st ∨ (¬ same_site urlparse base_domain current_url)))
  ∨ ((current_url ∉ visited_urls st)
     ∧ same_site urlparse base_domain current_url
     ∧ page_done current_url depth (visited_urls st ∪ {[current_url]}) queue
         w st' w').

End crawl_predicates.

(** *** Relations between the worlds before and after a call *)

(** However [m] ends, the world it ends in is related by [R] to the world
    it started in. *)
Definition keeps {A} (R : world → world → Prop) (m : M A) : Prop :=
  ∀ w,
    match m w with
    | Return _ w' | Raise _ w' | Blocked w' => R w w'
    | OutOfFuel => True
    end.

(** When [m] returns, what it returns satisfies [P]. *)
Definition yields {A} (P : A → Prop) (m : M A) : Prop :=
  ∀ w a w', m w = Return a w' → P a.

(** The record [t'] is [t] with lines added at the end of its log. *)
Definition log_extended (t t' : task) : Prop :=
  status t' = status t ∧ urls t' = urls t ∧ filename t' = filename t
  ∧ error_message t' = error_message t
  ∧ last_message_index_sent t' = last_message_index_sent t
  ∧ results_summary t' = results_summary t
  ∧ default [] (progress_messages t) `prefix_of` default [] (progress_messages t').

(** What a crawl for [task_id] may change: nothing in the files, nothing
    in the records of the other tasks, and in its own record, if there is
    one, only the log, at its end. *)
Definition only_logs (task_id : string) (w w' : world) : Prop :=
  files w' = files w
  ∧ (∀ k, k ≠ task_id → tasks w' !! k = tasks w !! k)
  ∧ match tasks w !! task_id with
    | Some t => ∃ t', tasks w' !! task_id = Some t' ∧ log_extended t t'
    | None => tasks w' !! task_id = None
    end.

(** What a run of the Task Runner for [task_id] may change: its own record,
    whose log only grows at its end, and its own artifact. *)
Definition only_own_task (task_id : string) (w w' : world) : Prop :=
  (∀ path, path ≠ os_path_join TEMP_DIR ("scraped_emails_" +:+ task_id +:+ ".csv") →
     files w' !! path = files w !! path)
  ∧ (∀ k, k ≠ task_id → tasks w' !! k = tasks w !! k)
  ∧ (is_Some (tasks w' !! task_id) ↔ is_Some (tasks w !! task_id))
  ∧ log_of task_id w `prefix_of` log_of task_id w'.

(** An output of the Email Extractor. *)
Definition extracted (e : string) : Prop :=
  ∃ url content, e ∈ find_emails_on_page url content.

(** The file system as the runner leaves it, for [os.path.isfile]. *)
Definition isfile_in (w : world) (path : string) : bool :=
  bool_decide (is_Some (files w !! path)).

(** Every address collected so far is an output of the Email Extractor. *)
Definition all_extracted (st : crawl_state) : Prop :=
  ∀ e, e ∈ emails_collected st → extracted e.

(** The matcher does not look beyond an [x]. *)
Definition stops_at_x (x : ascii) (k : Re.matcher) : Prop :=
  ∀ a b,
    k (a +:+ String x b)
    = match k a with
      | Some (m, r) => Some (m, r +:+ String x b)
      | None => None
      end.

(** What a matcher returns is a split of its input. *)
Definition splits_input (k : Re.matcher) : Prop :=
  ∀ s m r, k s = Some (m, r) → s = m +:+ r.


(** The call has returned or raised, with the lock free. *)
Definition ended_unlocked {A} (o : outcome A) : Prop :=
  match o with
  | Return _ w' | Raise _ w' => tasks_lock w' = false
  | Blocked _ | OutOfFuel => False
  end.

(** * Properties *)

(** ** Strings *)

Section string_facts.

Implicit Types (s t : string) (c : ascii).

Lemma app_cons c s t : String c s +:+ t = String c (s +:+ t).
Proof. reflexivity. Qed.

Lemma app_empty_l s : "" +:+ s = s.
Proof. reflexivity. Qed.

Lemma app_empty_r s : s +:+ "" = s.
Proof. induction s as [|c s IH]; [done|]. by rewrite app_cons, IH. Qed.

Lemma app_assoc' s t u : (s +:+ t) +:+ u = s +:+ t +:+ u.
Proof. induction s as [|c s IH]; [done|]. by rewrite !app_cons, IH. Qed.

Lemma str_length_app s t :
  String.length (s +:+ t) = (String.length s + String.length t)%nat.
Proof. induction s as [|c s IH]; [done|]. rewrite app_cons. simpl. by rewrite IH. Qed.

Lemma lower_app s t : PyStr.lower (s +:+ t) = PyStr.lower s +:+ PyStr.lower t.
Proof. induction s as [|c s IH]; [done|]. rewrite app_cons. simpl. by rewrite IH. Qed.

Lemma lower_length s : String.length (PyStr.lower s) = String.length s.
Proof. induction s as [|c s IH]; [done|]. simpl. by rewrite IH. Qed.

Lemma all_chars_app p s t :
  all_chars p (s +:+ t) = all_chars p s && all_chars p t.
Proof.
  induction s as [|c s IH]; [done|]. rewrite app_cons. simpl.
  by rewrite IH, andb_assoc.
Qed.

Lemma all_chars_impl (p q : ascii → bool) s :
  (∀ c, p c = true → q c = true) → all_chars p s = true → all_chars q s = true.
Proof.
  intros Hpq. induction s as [|c s IH]; [done|]. simpl.
  intros [Hc Hs]%andb_prop. by rewrite (Hpq _ Hc), IH.
Qed.

Lemma all_chars_lower (p q : ascii → bool) s :
  (∀ c, p c = true → q (PyStr.lower_char c) = true) →
  all_chars p s = true → all_chars q (PyStr.lower s) = true.
Proof.
  intros Hpq. induction s as [|c s IH]; [done|]. simpl.
  intros [Hc Hs]%andb_prop. by rewrite (Hpq _ Hc), IH.
Qed.

(** A one-character needle. *)

Lemma startswith_char c s :
  PyStr.startswith (String c "") s
  = match s with String b _ => Ascii.eqb c b | "" => false end.
Proof. destruct s as [|b s]; [done|]. simpl. by destruct (Ascii.eqb c b). Qed.

Lemma contains_char_absent c s :
  all_chars (λ b, negb (Ascii.eqb c b)) s = true →
  PyStr.contains (String c "") s = false.
Proof.
  induction s as [|b s IH]; [done|].
  intros [Hb Hs]%andb_prop. cbn [PyStr.contains].
  rewrite startswith_char, IH by done. by destruct (Ascii.eqb c b).
Qed.

Lemma contains_char_app c s t :
  PyStr.contains (String c "") (s +:+ String c t) = true.
Proof.
  induction s as [|b s IH].
  - rewrite app_empty_l. cbn [PyStr.contains]. rewrite startswith_char.
    by rewrite Ascii.eqb_refl.
  - rewrite app_cons. cbn [PyStr.contains]. rewrite IH. apply orb_true_r.
Qed.

Lemma count_char_absent c s :
  all_chars (λ b, negb (Ascii.eqb c b)) s = true →
  PyStr.count (String c "") s = 0%nat.
Proof.
  unfold PyStr.count. induction s as [|b s IH]; [done|].
  intros [Hb Hs]%andb_prop. cbn [PyStr.count_go].
  rewrite startswith_char. destruct (Ascii.eqb c b); [done|]. by apply IH.
Qed.

Lemma count_char_app c s t :
  all_chars (λ b, negb (Ascii.eqb c b)) s = true →
  PyStr.count (String c "") (s +:+ String c t)
  = S (PyStr.count (String c "") t).
Proof.
  unfold PyStr.count. induction s as [|b s IH].
  - intros _. rewrite app_empty_l. cbn [PyStr.count_go].
    rewrite startswith_char, Ascii.eqb_refl. done.
  - intros [Hb Hs]%andb_prop. rewrite app_cons. cbn [PyStr.count_go].
    rewrite startswith_char. destruct (Ascii.eqb c b); [done|]. by apply IH.
Qed.

Lemma split_nonempty sep k s : PyStr.split_go sep k s ≠ [].
Proof.
  revert k. induction s as [|b s IH]; intros k; [done|].
  cbn [PyStr.split_go]. destruct k; [|apply IH].
  destruct (PyStr.startswith sep (String b s)); [done|].
  by destruct (PyStr.split_go sep 0 s).
Qed.

Lemma split_char_absent c s :
  all_chars (λ b, negb (Ascii.eqb c b)) s = true →
  PyStr.split (String c "") s = [s].
Proof.
  unfold PyStr.split. induction s as [|b s IH]; [done|].
  intros [Hb Hs]%andb_prop. cbn [PyStr.split_go].
  rewrite startswith_char. destruct (Ascii.eqb c b); [done|].
  by rewrite IH.
Qed.

Lemma split_char_app c s t :
  PyStr.split (String c "") (s +:+ String c t)
  = PyStr.split (String c "") s ++ PyStr.split (String c "") t.
Proof.
  unfold PyStr.split. induction s as [|b s IH].
  - rewrite app_empty_l. cbn [PyStr.split_go].
    rewrite startswith_char, Ascii.eqb_refl. done.
  - rewrite app_cons. cbn [PyStr.split_go]. rewrite !startswith_char.
    destruct (Ascii.eqb c b).
    + simpl. by rewrite IH.
    + rewrite IH.
      pose proof (split_nonempty (String c "") 0 s) as Hne.
      by destruct (PyStr.split_go (String c "") 0 s).
Qed.

Lemma endswith_char_absent c s :
  all_chars (λ b, negb (Ascii.eqb c b)) s = true →
  PyStr.endswith (String c "") s = false.
Proof.
  induction s as [|b s IH]; [done|].
  intros [Hb Hs]%andb_prop. cbn [PyStr.endswith]. rewrite IH by done.
  simpl. by destruct (Ascii.eqb c b).
Qed.

Lemma endswith_char_app c s t :
  t ≠ "" →
  PyStr.endswith (String c "") (s +:+ t) = PyStr.endswith (String c "") t.
Proof.
  intros Ht. induction s as [|b s IH]; [done|].
  rewrite app_cons. cbn [PyStr.endswith]. rewrite IH.
  assert (String.eqb (String c "") (String b (s +:+ t)) = false) as ->; [|done].
  simpl. destruct (Ascii.eqb c b); [|done].
  destruct s; [by destruct t|done].
Qed.

End string_facts.

(** ** The matcher and the shape of its matches *)

Section regex_facts.

Implicit Types (s m r : string) (k : Re.matcher) (cls : ascii → bool).

Lemma m_eps_inv s m r : Re.m_eps s = Some (m, r) → m = "".
Proof. unfold Re.m_eps. congruence. Qed.

Lemma m_set_inv cls k s m r :
  Re.m_set cls k s = Some (m, r) →
  ∃ c s' m', s = String c s' ∧ cls c = true ∧ m = String c m'
             ∧ k s' = Some (m', r).
Proof.
  unfold Re.m_set. destruct s as [|c s']; [done|].
  destruct (cls c) eqn:Hc; [|done].
  destruct (k s') as [[m' r']|] eqn:Hk; [|done].
  simpl. intros [= <- <-]. by exists c, s', m'.
Qed.

Lemma m_star_inv cls k s m r :
  Re.m_star cls k s = Some (m, r) →
  ∃ a b s', m = a +:+ b ∧ all_chars cls a = true ∧ k s' = Some (b, r).
Proof.
  revert m. induction s as [|c s IH]; intros m; cbn [Re.m_star].
  - intros Hk. by exists "", m, "".
  - destruct (cls c) eqn:Hc; [|intros Hk; by exists "", m, (String c s)].
    destruct (Re.m_star cls k s) as [[m' r']|] eqn:Hstar; simpl.
    + intros [= <- <-].
      destruct (IH m' eq_refl) as (a & b & s' & -> & Ha & Hk).
      exists (String c a), b, s'. simpl. by rewrite Hc, Ha.
    + intros Hk. by exists "", m, (String c s).
Qed.

Lemma m_plus_inv cls k s m r :
  Re.m_plus cls k s = Some (m, r) →
  ∃ a b s', m = a +:+ b ∧ a ≠ "" ∧ all_chars cls a = true
            ∧ k s' = Some (b, r).
Proof.
  intros (c & s1 & m1 & -> & Hc & -> & Hstar)%m_set_inv.
  apply m_star_inv in Hstar as (a & b & s' & -> & Ha & Hk).
  exists (String c a), b, s'. simpl. by rewrite Hc, Ha.
Qed.

Lemma email_regex_shape s m r : email_regex s = Some (m, r) → email_shape m.
Proof.
  unfold email_regex.
  intros (l & m1 & s1 & -> & Hl & Hlc & H1)%m_plus_inv.
  apply m_set_inv in H1 as (at_ & s2 & m2 & -> & Hat & -> & H2).
  apply Ascii.eqb_eq in Hat as <-.
  apply m_plus_inv in H2 as (d & m3 & s3 & -> & Hd & Hdc & H3).
  apply m_set_inv in H3 as (dot & s4 & m4 & -> & Hdot & -> & H4).
  apply Ascii.eqb_eq in Hdot as <-.
  apply m_set_inv in H4 as (t0 & s5 & m5 & -> & Ht0 & -> & H5).
  apply m_set_inv in H5 as (t1 & s6 & m6 & -> & Ht1 & -> & H6).
  apply m_star_inv in H6 as (t & e & s7 & -> & Ht & ->%m_eps_inv).
  exists l, d, (String t0 (String t1 t)).
  rewrite app_empty_r. repeat split; try done.
  - simpl. lia.
  - simpl. by rewrite Ht0, Ht1, Ht.
Qed.

Lemma findall_go_matches (P : string → Prop) k :
  (∀ s m r, k s = Some (m, r) → P m) →
  ∀ s skip m, m ∈ Re.findall_go k skip s → P m.
Proof.
  intros Hk. induction s as [|c s IH]; intros skip m; cbn [Re.findall_go].
  - by intros ?%elem_of_nil.
  - destruct skip; [|apply IH].
    destruct (k (String c s)) as [[m' r]|] eqn:Hm; [|apply IH].
    intros [->|Hin]%elem_of_cons; [by eapply Hk|by eapply IH].
Qed.

Lemma findall_email_shape content m :
  m ∈ Re.findall email_regex content → email_shape m.
Proof. apply findall_go_matches, email_regex_shape. Qed.

End regex_facts.

(** ** What the filter does on a match *)

Lemma local_char_lower c :
  local_char c = true →
  let c' := PyStr.lower_char c in
  negb (Ascii.eqb "@" c') && negb (Ascii.eqb " " c') && negb (Ascii.eqb "'" c')
  = true.
Proof. destruct c as [[] [] [] [] [] [] [] []]; by vm_compute. Qed.

Lemma domain_char_lower c :
  domain_char c = true →
  let c' := PyStr.lower_char c in
  negb (Ascii.eqb "@" c') && negb (Ascii.eqb " " c') && negb (Ascii.eqb "'" c')
  = true.
Proof. destruct c as [[] [] [] [] [] [] [] []]; by vm_compute. Qed.

Lemma alpha_char_lower c :
  PyStr.is_alpha c = true →
  let c' := PyStr.lower_char c in
  negb (Ascii.eqb "@" c') && negb (Ascii.eqb " " c') && negb (Ascii.eqb "'" c')
  && negb (Ascii.eqb "." c') = true.
Proof. destruct c as [[] [] [] [] [] [] [] []]; by vm_compute. Qed.

(** The lowercased match: a local part, [@], a domain, a dot and a last
    label of two or more characters, none of them with [@], a space or a
    quote, and the last label without a dot. *)
Lemma lower_email_shape m :
  email_shape m →
  ∃ l d t,
    PyStr.lower m = l +:+ String "@" (d +:+ String "." t)
    ∧ l ≠ ""
    ∧ (avoids "@" l ∧ avoids " " l ∧ avoids "'" l)
    ∧ (avoids "@" d ∧ avoids " " d ∧ avoids "'" d)
    ∧ (avoids "@" t ∧ avoids " " t ∧ avoids "'" t ∧ avoids "." t)
    ∧ (2 ≤ String.length t)%nat.
Proof.
  intros (l & d & t & -> & Hl & Hlc & Hd & Hdc & Hlen & Htc).
  exists (PyStr.lower l), (PyStr.lower d), (PyStr.lower t).
  split; [|split; [by destruct l|]].
  { change (l +:+ "@" +:+ d +:+ "." +:+ t)
      with (l +:+ String "@" (d +:+ String "." t)).
    rewrite lower_app. cbn [PyStr.lower]. rewrite lower_app. cbn [PyStr.lower].
    done. }
  rewrite lower_length. unfold avoids.
  repeat split; try done.
  all: first [ eapply all_chars_lower; [|exact Hlc]; intros c Hc;
               pose proof (local_char_lower c Hc) as H
             | eapply all_chars_lower; [|exact Hdc]; intros c Hc;
               pose proof (domain_char_lower c Hc) as H
             | eapply all_chars_lower; [|exact Htc]; intros c Hc;
               pose proof (alpha_char_lower c Hc) as H ];
    cbv zeta in H; repeat (apply andb_prop in H as [H ?]); done.
Qed.

Lemma avoids_app c s t : avoids c (s +:+ t) ↔ avoids c s ∧ avoids c t.
Proof. unfold avoids. rewrite all_chars_app. apply andb_true_iff. Qed.

Lemma avoids_cons c b s : avoids c (String b s) ↔ Ascii.eqb c b = false ∧ avoids c s.
Proof.
  unfold avoids. simpl. rewrite andb_true_iff, negb_true_iff. done.
Qed.

Lemma startswith_char_absent c s :
  avoids c s → PyStr.startswith (String c "") s = false.
Proof.
  rewrite startswith_char. destruct s as [|b s]; [done|].
  by intros [? _]%avoids_cons.
Qed.

(** A lowercased match has no space, one [@], a dotted domain with a last
    label of two characters or more, and no quote at either end. *)
Lemma match_passes_shape_checks m :
  email_shape m → passes_shape_checks (PyStr.lower m).
Proof.
  intros (l & d & t & -> & Hl & (Hl1 & Hl2 & Hl3) & (Hd1 & Hd2 & Hd3)
          & (Ht1 & Ht2 & Ht3 & Ht4) & Hlen)%lower_email_shape.
  set (e := l +:+ String "@" (d +:+ String "." t)).
  assert (avoids "@" (d +:+ String "." t)) as Hdt.
  { apply avoids_app. split; [done|]. by apply avoids_cons. }
  assert (avoids " " e) as Hsp.
  { apply avoids_app. split; [done|]. apply avoids_cons. split; [done|].
    apply avoids_app. split; [done|]. by apply avoids_cons. }
  assert (avoids "'" e) as Hq.
  { apply avoids_app. split; [done|]. apply avoids_cons. split; [done|].
    apply avoids_app. split; [done|]. by apply avoids_cons. }
  split; [by apply contains_char_absent|].
  split.
  { unfold e. rewrite count_char_app by done. by rewrite count_char_absent. }
  split.
  { exists l, (d +:+ String "." t). split.
    - unfold e. rewrite split_char_app. by rewrite !split_char_absent.
    - split; [apply contains_char_app|].
      rewrite (split_char_app "." d t), (split_char_absent "." t Ht4).
      by rewrite List.last_last. }
  split; [by apply startswith_char_absent|by apply endswith_char_absent].
Qed.

(** Hence the two filters agree on every candidate that passes them. *)
Lemma email_kept_simplify e :
  passes_shape_checks e → email_kept e = email_kept_simplified e.
Proof.
  intros (Hsp & Hcount & (l & dom & Hsplit & Hdot & Hlast) & Hsw & Hew).
  unfold email_kept, email_kept_simplified.
  destruct (existsb _ common_image_extensions); [done|].
  destruct (existsb _ false_positive_patterns); [done|].
  destruct (255 <? String.length e)%nat; [done|].
  rewrite Hsp, Hcount, Hsplit, Hdot, Hsw, Hew.
  by apply Nat.leb_le in Hlast as ->.
Qed.

(** ** Email Extractor: the claims *)

(** C9: [find_emails_on_page] is a function of [content] alone; two calls
    with the same content and any two [url] arguments return the same set. *)
Theorem find_emails_url_irrelevant (url1 url2 content : string) :
  find_emails_on_page url1 content = find_emails_on_page url2 content.
Proof. reflexivity. Qed.

(** C10: for every text, [find_emails_on_page] returns the set of the
    variant without the space, single-[@], dotted-domain, last-label and
    quote checks, and every candidate the pattern produces passes those
    checks: none of them rejects a match. *)
Theorem find_emails_refines_simplified (url content : string) :
  find_emails_on_page url content = find_emails_simplified content
  ∧ ∀ m, m ∈ Re.findall email_regex content →
         passes_shape_checks (PyStr.lower m).
Proof.
  split; [|intros m Hm%findall_email_shape; by apply match_passes_shape_checks].
  unfold find_emails_on_page, find_emails_simplified.
  apply set_eq. intros e. rewrite !elem_of_set_omap.
  split; intros (m & Hm & He); exists m; (split; [done|]);
    pose proof Hm as Hs%elem_of_list_to_set%findall_email_shape;
    apply match_passes_shape_checks, email_kept_simplify in Hs;
    cbv zeta in *.
  - by rewrite <- Hs.
  - by rewrite Hs.
Qed.

(** C3, as stated: both sample texts give no email.  It fails on the first
    text, where the pattern stops before the slash. *)
Lemma logo_token_not_excluded :
  ¬ (find_emails_on_page "" "logo@site.com/pic.png" = ∅
     ∧ find_emails_on_page "" "admin@example.com" = ∅).
Proof. intros [H _]. by vm_compute in H. Qed.

Lemma email_kept_no_blocked_substring e :
  email_kept e = true →
  (∀ ext, ext ∈ common_image_extensions → PyStr.contains ext e = false)
  ∧ (∀ fp, fp ∈ false_positive_patterns → PyStr.contains fp e = false).
Proof.
  unfold email_kept.
  destruct (existsb _ common_image_extensions) eqn:Himg; [done|].
  destruct (existsb _ false_positive_patterns) eqn:Hfp; [done|].
  intros _. split; intros x Hx%list_elem_of_In.
  - destruct (PyStr.contains x e) eqn:Hc; [|done].
    assert (existsb (λ ext, PyStr.contains ext e) common_image_extensions = true)
      by (apply existsb_exists; eauto). congruence.
  - destruct (PyStr.contains x e) eqn:Hc; [|done].
    assert (existsb (λ fp, PyStr.contains fp e) false_positive_patterns = true)
      by (apply existsb_exists; eauto). congruence.
Qed.

(** C3, amended: [admin@example.com] is excluded by the placeholder filter,
    and no returned email contains an image extension or a placeholder; a
    match that itself contains an image extension, such as [logo@2x.png], is
    excluded; in [logo@site.com/pic.png] the match is [logo@site.com], which
    is returned. *)
Theorem find_emails_filtering (url : string) :
  find_emails_on_page url "admin@example.com" = ∅
  ∧ find_emails_on_page url "logo@2x.png" = ∅
  ∧ find_emails_on_page url "logo@site.com/pic.png" = {["logo@site.com"]}
  ∧ ∀ content e, e ∈ find_emails_on_page url content →
      (∀ ext, ext ∈ common_image_extensions → PyStr.contains ext e = false)
      ∧ (∀ fp, fp ∈ false_positive_patterns → PyStr.contains fp e = false).
Proof.
  split; [by vm_compute|]. split; [by vm_compute|]. split; [by vm_compute|].
  intros content e (m & _ & He)%elem_of_set_omap. cbv zeta in He.
  destruct (email_kept (PyStr.lower m)) eqn:Hk; [|done].
  injection He as <-. by apply email_kept_no_blocked_substring.
Qed.

(** ** Download *)

Lemma contains_empty s : PyStr.contains "" s = true.
Proof. by destruct s. Qed.

Lemma contains_tail sub c s :
  PyStr.contains sub s = true → PyStr.contains sub (String c s) = true.
Proof. intros H. cbn [PyStr.contains]. rewrite H. apply orb_true_r. Qed.

Lemma split_char_head c s f fs :
  PyStr.split (String c "") s = f :: fs → PyStr.startswith f s = true.
Proof.
  unfold PyStr.split. revert f fs.
  induction s as [|b s IH]; intros f fs; cbn [PyStr.split_go].
  - by intros [= <- <-].
  - rewrite startswith_char. destruct (Ascii.eqb c b); [by intros [= <- <-]|].
    destruct (PyStr.split_go (String c "") 0 s) as [|f' fs'] eqn:Hs.
    + by destruct (split_nonempty (String c "") 0 s).
    + intros [= <- <-]. simpl. rewrite Ascii.eqb_refl. by eapply IH.
Qed.

(** A field of a split is a substring of the text. *)
Lemma split_char_field c s f :
  f ∈ PyStr.split (String c "") s → PyStr.contains f s = true.
Proof.
  induction s as [|b s IH].
  - intros ->%list_elem_of_singleton. done.
  - unfold PyStr.split. cbn [PyStr.split_go]. rewrite startswith_char.
    destruct (Ascii.eqb c b).
    + intros [->|Hin]%elem_of_cons; [apply contains_empty|].
      by apply contains_tail, IH.
    + destruct (PyStr.split_go (String c "") 0 s) as [|f' fs'] eqn:Hs.
      { by destruct (split_nonempty (String c "") 0 s). }
      intros [->|Hin]%elem_of_cons.
      * cbn [PyStr.contains]. simpl. rewrite Ascii.eqb_refl.
        by rewrite (split_char_head c s f' fs' Hs).
      * apply contains_tail, IH. unfold PyStr.split. rewrite Hs.
        by apply elem_of_cons; right.
Qed.

(** C8, as stated, asks for 404 whenever a name without parent segment and
    without leading slash names no file.  The guard looks for two dots
    anywhere in the name, so such a name can get 400. *)
Lemma download_dotted_name_gets_400 :
  ¬ has_parent_segment "report..csv"
  ∧ PyStr.startswith "/" "report..csv" = false
  ∧ download_file (λ _, false) "report..csv" = (Text "Invalid filename" 400, [])
  ∧ (download_file (λ _, false) "report..csv").1
    ≠ Text "File not found or access denied." 404.
Proof.
  split; [|by vm_compute].
  unfold has_parent_segment.
  assert (PyStr.split "/" "report..csv" = ["report..csv"]) as -> by reflexivity.
  by intros ?%list_elem_of_singleton.
Qed.

(** C8, amended: a name that contains two consecutive dots, so every name
    with a parent-directory segment, or that starts with a slash, is
    answered 400 with no file-system operation, in particular
    [../../etc/passwd] and [/etc/passwd]; a name that passes this guard and
    names no file under [TEMP_DIR] is answered 404. *)
Theorem download_file_guard (isfile : string → bool) (filename : string) :
  (has_parent_segment filename ∨ PyStr.contains ".." filename = true
   ∨ PyStr.startswith "/" filename = true →
   download_file isfile filename = (Text "Invalid filename" 400, []))
  ∧ download_file isfile "../../etc/passwd" = (Text "Invalid filename" 400, [])
  ∧ download_file isfile "/etc/passwd" = (Text "Invalid filename" 400, [])
  ∧ (PyStr.contains ".." filename = false →
     PyStr.startswith "/" filename = false →
     isfile (os_path_join TEMP_DIR filename) = false →
     download_file isfile filename
     = (Text "File not found or access denied." 404,
        [IsFile (os_path_join TEMP_DIR filename)])).
Proof.
  split; [|split; [done|split; [done|]]].
  - unfold download_file.
    intros [H%split_char_field|[H|H]]; rewrite H; [done..|].
    by rewrite orb_true_r.
  - unfold download_file. by intros -> -> ->.
Qed.

(** ** Malformed [mailto:] links *)

Lemma split_go_length_prefix sep s :
  sep ≠ "" → PyStr.startswith sep s = true →
  (2 ≤ length (PyStr.split sep s))%nat.
Proof.
  intros Hsep Hs. unfold PyStr.split. destruct s as [|c s].
  - by destruct sep.
  - cbn [PyStr.split_go]. rewrite Hs. simpl.
    pose proof (split_nonempty sep (String.length sep - 1) s).
    destruct (PyStr.split_go sep (String.length sep - 1) s); [done|simpl; lia].
Qed.

Lemma index_in_range {A} (l : list A) (i : Z) :
  0 ≤ i < Z.of_nat (length l) → ∃ x, PyStr.index l i = Ok x.
Proof.
  intros Hi. unfold PyStr.index.
  destruct (Z.ltb_spec i 0) as [?|_]; [lia|].
  destruct (Z.ltb_spec i 0) as [?|_]; [lia|].
  destruct (Z.leb_spec (Z.of_nat (length l)) i) as [?|_]; [lia|].
  simpl. destruct (lookup_lt_is_Some_2 l (Z.to_nat i)) as [x ->]; [lia|].
  by exists x.
Qed.

(** The expression under [try] never raises on a link that starts with
    [mailto:]. *)
Lemma email_in_mailto_total href :
  PyStr.startswith "mailto:" href = true → ∃ address, email_in_mailto href = Ok address.
Proof.
  intros H. unfold email_in_mailto.
  destruct (index_in_range (PyStr.split "mailto:" href) 1) as [after ->].
  { pose proof (split_go_length_prefix "mailto:" href ltac:(done) H). lia. }
  apply index_in_range.
  pose proof (split_nonempty "?" 0 after).
  unfold PyStr.split. destruct (PyStr.split_go "?" 0 after); [done|simpl; lia].
Qed.

(** So the loop over the anchors never writes to the log. *)
Lemma add_mailto_addresses_silent task_id current_url a_tags :
  ∀ page_text w,
    ∃ page_text',
      add_mailto_addresses task_id current_url a_tags page_text w
      = Return page_text' w.
Proof.
  induction a_tags as [|a_tag a_tags IH]; intros page_text w;
    cbn [add_mailto_addresses]; [by exists page_text|].
  destruct (PyStr.startswith "mailto:" (href a_tag)) eqn:Hm; [|apply IH].
  destruct (email_in_mailto_total _ Hm) as [address ->]. apply IH.
Qed.

(** C7 (the program departs from it): a [mailto:] link takes the branch
    that appends a token, whatever follows the colon, so that the warning
    is never logged: the loop over the anchors leaves the registry as it
    was; for [href="mailto:"] a space with an empty address is appended to
    the text. *)
Theorem malformed_mailto_no_warning :
  (∀ href, PyStr.startswith "mailto:" href = true →
           ∃ address, email_in_mailto href = Ok address)
  ∧ (∀ task_id current_url a_tags page_text w,
       ∃ page_text',
         add_mailto_addresses task_id current_url a_tags page_text w
         = Return page_text' w)
  ∧ email_in_mailto "mailto:" = Ok ""
  ∧ ∀ task_id current_url page_text w,
      add_mailto_addresses task_id current_url [Anchor "mailto:" "write"] page_text w
      = Return (page_text +:+ " " +:+ "") w.
Proof.
  split; [apply email_in_mailto_total|].
  split; [intros; apply add_mailto_addresses_silent|]. split; reflexivity.
Qed.

(** ** Progress stream *)

Section stream_facts.

Context (task_id : string).

Lemma slice_from_cursor {A} (l : list A) (n : nat) :
  PyStr.slice_from l (Z.of_nat n - 1 + 1) = drop n l.
Proof.
  unfold PyStr.slice_from.
  destruct (Z.ltb_spec (Z.of_nat n - 1 + 1) 0) as [?|_]; [lia|].
  f_equal. lia.
Qed.

(** One poll by an observer that has received [prev], a prefix of the
    log: it yields the lines after [prev], then the terminal event if the
    task has ended. *)
Lemma poll_spec (prev : list string) (w : world) (t : task) :
  tasks_lock w = false →
  tasks w !! task_id = Some t →
  prev `prefix_of` log_of task_id w →
  poll task_id (Z.of_nat (length prev) - 1) w
  = PollYield
      (map sse (drop (length prev) (log_of task_id w)) ++ terminal_events t)
      (match stream_end_after t (length (log_of task_id w)) with
       | Waiting idx => Some idx
       | _ => None
       end).
Proof.
  intros Hlock Ht [k Hk]. unfold poll, log_of in *. rewrite Hlock, Ht in *.
  rewrite slice_from_cursor. unfold terminal_events, stream_end_after.
  assert (Z.of_nat (length prev) - 1
          + Z.of_nat (length (drop (length prev) (default [] (progress_messages t))))
          = Z.of_nat (length (default [] (progress_messages t))) - 1) as ->.
  { rewrite length_drop, Hk, length_app. lia. }
  destruct (status t); by rewrite ?app_nil_r.
Qed.

Lemma generate_from_spec (polls : list world) :
  ∀ (prev : list string) (w : world) (t : task),
    Forall (readable task_id running) polls →
    tasks_lock w = false →
    tasks w !! task_id = Some t →
    logs_grow task_id prev (polls ++ [w]) →
    generate_from task_id (Z.of_nat (length prev) - 1) (polls ++ [w])
    = (map sse (drop (length prev) (log_of task_id w)) ++ terminal_events t,
       stream_end_after t (length (log_of task_id w))).
Proof.
  induction polls as [|w1 polls IH]; intros prev w t Hpolls Hlock Ht Hgrow.
  - destruct Hgrow as [Hpre _]. cbn [app generate_from].
    rewrite (poll_spec prev w t) by done.
    unfold stream_end_after. destruct (status t); simpl; by rewrite ?app_nil_r.
  - apply Forall_cons in Hpolls as [(Hlock1 & t1 & Ht1 & Hrun) Hpolls].
    destruct Hgrow as [Hpre Hgrow]. cbn [app generate_from].
    rewrite (poll_spec prev w1 t1) by done.
    assert (terminal_events t1 = []
            ∧ stream_end_after t1 (length (log_of task_id w1))
              = Waiting (Z.of_nat (length (log_of task_id w1)) - 1)) as [-> ->].
    { unfold terminal_events, stream_end_after. by destruct Hrun as [-> | ->]. }
    rewrite (IH _ w t) by done. cbn [fst snd]. f_equal.
    rewrite app_nil_r, app_assoc, <- map_app. do 2 f_equal.
    assert (log_of task_id w1 `prefix_of` log_of task_id w) as [k2 Hk2].
    { clear -Hgrow. revert Hgrow. generalize (log_of task_id w1).
      induction polls as [|w2 polls IH]; intros l; simpl.
      - by intros [? _].
      - intros [H1 H2]. etrans; [exact H1|]. by apply IH. }
    destruct Hpre as [k1 Hk1]. rewrite Hk2, Hk1.
    rewrite (drop_app_length (prev ++ k1)), <- app_assoc.
    by rewrite !drop_app_length.
Qed.

End stream_facts.


(** ** Reasoning about the computations of a thread *)

Section wp_rules.

Context {A B : Type}.
Implicit Types (w : world) (R : string → world → Prop).

Lemma wp_ret (a : A) w (Q : A → world → Prop) R : Q a w → wp (ret a) w Q R.
Proof. done. Qed.

Lemma wp_bind (m : M A) (f : A → M B) w (Q : B → world → Prop) R :
  wp m w (λ a w', wp (f a) w' Q R) R → wp (bind m f) w Q R.
Proof. unfold wp, bind. by destruct (m w). Qed.

Lemma wp_mono (m : M A) w (Q Q' : A → world → Prop) R R' :
  wp m w Q R → (∀ a w', Q a w' → Q' a w') → (∀ e w', R e w' → R' e w') →
  wp m w Q' R'.
Proof. unfold wp. destruct (m w); eauto. Qed.

Lemma wp_lift_res (r : res A) w (Q : A → world → Prop) R :
  match r with Ok a => Q a w | Err e => R e w end → wp (lift_res r) w Q R.
Proof. by destruct r. Qed.


End wp_rules.

Lemma extends_refl w : extends w w [].
Proof. unfold extends. by rewrite app_nil_r. Qed.

Lemma extends_trans w1 w2 w3 tr1 tr2 :
  extends w1 w2 tr1 → extends w2 w3 tr2 → extends w1 w3 (tr1 ++ tr2).
Proof.
  intros (?&?&?&?) (?&?&?&?). unfold extends.
  rewrite app_assoc. repeat split; congruence.
Qed.

Lemma extends_quiet w1 w2 w3 tr :
  extends w1 w2 tr → extends w2 w3 [] → extends w1 w3 tr.
Proof. intros H1 H2. rewrite <- (app_nil_r tr). by eapply extends_trans. Qed.

Lemma extends_quiet_l w1 w2 w3 tr :
  extends w1 w2 [] → extends w2 w3 tr → extends w1 w3 tr.
Proof. intros H1 H2. change tr with ([] ++ tr). by eapply extends_trans. Qed.

Lemma extends_lock w w' tr :
  tasks_lock w = false → extends w w' tr → tasks_lock w' = false.
Proof. intros ? (?&_). congruence. Qed.

(** With the lock free, [log_progress] returns and leaves everything but the
    logs as it was. *)
Lemma log_progress_returns task_id message w :
  tasks_lock w = false →
  ∃ w', log_progress task_id message w = Return tt w' ∧ extends w w' [].
Proof.
  intros Hlock. unfold log_progress, with_tasks_lock. rewrite Hlock. simpl.
  destruct (tasks w !! task_id) as [t|] eqn:Ht; eexists; (split; [done|]).
  - unfold extends. destruct w; simpl in *.
    rewrite app_nil_r, dom_insert_L.
    repeat split; try done. apply elem_of_dom_2 in Ht.
    apply set_eq. intros k. rewrite elem_of_union, elem_of_singleton.
    split; [intros [->|?]; done|by right].
  - unfold extends. destruct w; simpl in *. by rewrite app_nil_r.
Qed.

Lemma wp_log_progress task_id message w (Q : unit → world → Prop) R :
  tasks_lock w = false →
  (∀ w', extends w w' [] → Q tt w') →
  wp (log_progress task_id message) w Q R.
Proof.
  intros Hlock HQ. unfold wp.
  destruct (log_progress_returns task_id message w Hlock) as (w' & Hw' & Hext).
  rewrite Hw'. by apply HQ.
Qed.

(** Under a held lock it blocks. *)
Lemma log_progress_blocks task_id message w :
  tasks_lock w = true → log_progress task_id message w = Blocked w.
Proof. intros Hlock. unfold log_progress, with_tasks_lock. by rewrite Hlock. Qed.

(** ** Crawl Engine: what one pass of the loop does *)

Section crawl_facts.

Context (urlparse : string → res parse_result).
Context (urljoin : string → string → res string).
Context (fetch : nat → string → res page).
Context (task_id base_domain : string).

Local Abbreviation same_site := (same_site urlparse base_domain).
Local Abbreviation target_of := (target_of urlparse urljoin base_domain).
Local Abbreviation links_resolve := (links_resolve urlparse urljoin).
Local Abbreviation queued_after := (queued_after urlparse urljoin base_domain).

Lemma is_valid_url_parsed u v :
  is_valid_url urlparse u = Ok v → ∃ p, urlparse u = Ok p.
Proof. unfold is_valid_url. destruct (urlparse u); [eauto|done]. Qed.

Lemma add_mailto_addresses_spec current_url a_tags :
  ∀ page_text w,
    tasks_lock w = false →
    wp (add_mailto_addresses task_id current_url a_tags page_text) w
      (λ _ w', extends w w' []) never.
Proof.
  induction a_tags as [|a_tag a_tags IH]; intros page_text w Hlock;
    cbn [add_mailto_addresses].
  - apply wp_ret, extends_refl.
  - destruct (PyStr.startswith "mailto:" (href a_tag)); [|by apply IH].
    destruct (email_in_mailto (href a_tag)); [by apply IH|].
    apply wp_bind, wp_log_progress; [done|]. intros w1 Hw1.
    eapply wp_mono; [apply IH; by eapply extends_lock| |done].
    intros ? w2 Hw2. by eapply extends_quiet.
Qed.

Lemma queued_after_skip current_url depth visited link links queue w r w' :
  (links_resolve current_url (link :: links) →
   ∀ next_url, target_of current_url link next_url →
     next_url ∈ visited ∨ next_url ∈ queue.*1) →
  queued_after current_url depth visited links queue w r w' →
  queued_after current_url depth visited (link :: links) queue w r w'.
Proof.
  intros Hlink (Hext & new & Hr & Hnd & Hnew & Hall). split; [done|].
  exists new. repeat split; try done.
  - apply Hall. intros l Hl. apply H. by apply elem_of_cons; right.
  - intros l n [->|Hl]%elem_of_cons Ht.
    + destruct (Hlink H n Ht) as [?|?]; [by left|right].
      rewrite fmap_app. apply elem_of_app. by left.
    + destruct Hall as [_ Hall]; [|by eapply Hall].
      intros l' Hl'. apply H. by apply elem_of_cons; right.
Qed.

Lemma queue_target_pages_spec current_url depth visited links :
  ∀ queue found w,
    tasks_lock w = false →
    wp (queue_target_pages urlparse urljoin task_id current_url base_domain
          depth visited links queue found) w
      (queued_after current_url depth visited links queue w) never.
Proof.
  induction links as [|link links IH]; intros queue found w Hlock;
    cbn [queue_target_pages].
  { apply wp_ret. split; [apply extends_refl|]. exists []. rewrite app_nil_r.
    repeat split; try done. by intros ?? ?%elem_of_nil. }
  assert (∀ found',
    (links_resolve current_url (link :: links) →
     ∀ next_url, target_of current_url link next_url →
       next_url ∈ visited ∨ next_url ∈ queue.*1) →
    wp (queue_target_pages urlparse urljoin task_id current_url base_domain
          depth visited links queue found') w
      (queued_after current_url depth visited (link :: links) queue w) never)
    as Hskip.
  { intros found' Hlink. eapply wp_mono; [by apply IH| |done].
    intros r w'. by apply queued_after_skip. }
  assert (∀ e,
    (links_resolve current_url (link :: links) → False) →
    wp (ret (queue, found, Some e)) w
      (queued_after current_url depth visited (link :: links) queue w) never)
    as Hraise.
  { intros e Hno. apply wp_ret. split; [apply extends_refl|]. exists [].
    rewrite app_nil_r. repeat split; try done; by intros ?%Hno. }
  case_bool_decide as Hhref.
  { apply Hskip. by intros _ n (? & _). }
  destruct (is_target_link link) eqn:Htarget;
    [|apply Hskip; intros _ n (_ & ? & _); congruence].
  destruct (urljoin current_url (href link)) as [next_url|e] eqn:Hjoin.
  2:{ apply Hraise. intros Hres.
      destruct (Hres link) as (n & p & ? & _); [by left|done..|congruence]. }
  destruct (urlparse next_url) as [parsed|e] eqn:Hparse.
  2:{ apply Hraise. intros Hres.
      destruct (Hres link) as (n & p & ? & ?); [by left|done..|congruence]. }
  unfold is_valid_url. rewrite Hparse.
  set (valid := negb _ && negb _ && negb _).
  destruct (bool_decide (netloc parsed = base_domain)
            && bool_decide (next_url ∉ visited)) eqn:Hcond.
  2:{ apply Hskip. intros _ n (_ & _ & Hn & p & Hp & _ & Hnet).
      assert (n = next_url) as -> by congruence.
      assert (p = parsed) as -> by congruence.
      apply andb_false_iff in Hcond as [Hc|Hc]; apply bool_decide_eq_false in Hc.
      - done.
      - left. by apply dec_stable. }
  apply andb_true_iff in Hcond as [Hnet%bool_decide_eq_true Hnv%bool_decide_eq_true].
  destruct (valid && bool_decide (next_url ∉ queue.*1)) eqn:Hcond.
  2:{ apply Hskip. intros _ n (_ & _ & Hn & p & Hp & Hv & _).
      assert (n = next_url) as -> by congruence.
      unfold is_valid_url in Hv. rewrite Hparse in Hv. fold valid in Hv.
      injection Hv as Hv. rewrite Hv in Hcond. right.
      apply bool_decide_eq_false in Hcond. by apply dec_stable. }
  apply andb_true_iff in Hcond as [Hvalid Hnq%bool_decide_eq_true].
  apply wp_bind, wp_log_progress; [done|]. intros w1 Hw1.
  eapply wp_mono; [apply IH; by eapply extends_lock| |done].
  intros r w2 (Hext & new & Hr & Hnd' & Hnew & Hall). split.
  { by eapply extends_quiet_l. }
  exists ((next_url, S depth) :: new).
  rewrite <- app_assoc in Hr, Hnd', Hall. simpl in Hr, Hnd', Hall.
  repeat split; try done.
  - intros Hnd. apply Hnd'. rewrite fmap_app. simpl. apply NoDup_app.
    split; [done|]. split; [|apply NoDup_singleton].
    by intros u Hu ->%list_elem_of_singleton.
  - apply Forall_cons. split; [|done]. simpl. repeat split; try done.
    exists parsed. unfold is_valid_url. rewrite Hparse. fold valid.
    by rewrite Hvalid.
  - apply Hall. intros l Hl. apply H. by apply elem_of_cons; right.
  - intros l n [->|Hl]%elem_of_cons Ht.
    + destruct Ht as (_ & _ & Hn & _).
      assert (n = next_url) as -> by congruence.
      right. rewrite fmap_app. apply elem_of_app. right. simpl. by left.
    + destruct Hall as [_ Hall]; [|by eapply Hall].
      intros l' Hl'. apply H. by apply elem_of_cons; right.
Qed.

Context (max_depth_setting : Z).

Local Abbreviation page_done :=
  (page_done urlparse urljoin fetch base_domain max_depth_setting).
Local Abbreviation passed :=
  (passed urlparse urljoin fetch base_domain max_depth_setting).

Lemma wp_http_get url w (Q : res page → world → Prop) R :
  Q (fetch (length (requests w)) url) (add_request url w) →
  wp (http_get fetch url) w Q R.
Proof. done. Qed.

Lemma extends_add_request url w : extends w (add_request url w) [url].
Proof. by destruct w. Qed.

Ltac chain :=
  solve [ eassumption
        | apply extends_refl
        | eapply extends_quiet; [|eassumption]; chain
        | eapply extends_quiet_l; [eassumption|]; chain ].
Ltac lock_free :=
  match goal with
  | H : tasks_lock ?w = false |- tasks_lock _ = false =>
      eapply (extends_lock w); [exact H|chain]
  end.

Lemma page_done_no_links current_url depth visited emails queue w w' :
  extends w w' [current_url] →
  (∀ soup, fetch (length (requests w)) current_url = Ok soup →
     depth = O → 1 ≤ max_depth_setting → False) →
  page_done current_url depth visited queue w
    (CrawlState visited emails queue) w'.
Proof.
  intros Hext Hno. split; [done|]. split; [done|]. exists [].
  rewrite app_nil_r. repeat split; try done.
  intros soup Hsoup Hd Hmd. by destruct (Hno soup).
Qed.

Lemma scrape_page_spec current_url depth visited emails queue w :
  tasks_lock w = false →
  wp (scrape_page urlparse urljoin fetch task_id base_domain max_depth_setting
        current_url depth visited emails queue) w
    (page_done current_url depth visited queue w) never.
Proof.
  intros Hlock. unfold scrape_page.
  apply wp_bind, wp_http_get.
  pose proof (extends_add_request current_url w) as Hw1.
  set (w1 := add_request current_url w) in *.
  destruct (fetch (length (requests w)) current_url) as [soup|e] eqn:Hfetch.
  2:{ apply wp_bind, wp_log_progress; [lock_free|]. intros w2 Hw2.
      apply wp_ret, page_done_no_links; [chain|]. intros soup' Hs.
      by rewrite Hfetch in Hs. }
  apply wp_bind. eapply wp_mono;
    [apply add_mailto_addresses_spec; lock_free| |done].
  intros page_text w2 Hw2. cbv beta in Hw2. apply wp_bind.
  set (emails_on_page := find_emails_on_page current_url page_text).
  apply (wp_mono _ _ (λ _ w3, extends w2 w3 []) _ never); [| |done].
  { case_bool_decide; [apply wp_ret, extends_refl|].
    apply wp_log_progress; [lock_free|done]. }
  intros _ w3 Hw3.
  destruct ((1 <=? max_depth_setting) && bool_decide (depth = O)) eqn:Hdisc.
  2:{ apply wp_ret, page_done_no_links; [chain|].
      intros _ _ -> Hmd. apply andb_false_iff in Hdisc as [Hc|Hc].
      - apply Z.leb_gt in Hc. lia.
      - by apply bool_decide_eq_false in Hc. }
  apply andb_true_iff in Hdisc as [Hmd%Z.leb_le Hd%bool_decide_eq_true].
  apply wp_bind, wp_log_progress; [lock_free|]. intros w4 Hw4.
  apply wp_bind. eapply wp_mono;
    [apply queue_target_pages_spec; lock_free| |done].
  intros [[queue' found] exn] w5 (Hw5 & new & Hq & Hnd & Hnew & Hall).
  simpl in Hq, Hall. subst queue'.
  assert (∀ w6, extends w5 w6 [] →
    page_done current_url depth visited queue w
      (CrawlState visited
         (if bool_decide (emails_on_page = ∅) then emails
          else emails ∪ emails_on_page) (queue ++ new)) w6) as Hdone.
  { intros w6 Hw6. split; [chain|]. split; [done|]. exists new.
    repeat split; try done.
    - intros [?|?]; [done|lia].
    - intros soup' Hsoup' _ _ Hres. assert (soup' = soup) as -> by congruence.
      by apply Hall. }
  destruct exn as [e|].
  - apply wp_bind, wp_log_progress; [lock_free|]. intros w6 Hw6.
    by apply wp_ret, Hdone.
  - apply wp_bind.
    apply (wp_mono _ _ (λ _ w6, extends w5 w6 []) _ never); [| |done].
    { destruct found; [apply wp_ret, extends_refl|].
      apply wp_log_progress; [lock_free|done]. }
    intros _ w6 Hw6. by apply wp_ret, Hdone.
Qed.

Lemma page_done_quiet_l current_url depth visited queue w w1 st' w' :
  extends w w1 [] →
  page_done current_url depth visited queue w1 st' w' →
  page_done current_url depth visited queue w st' w'.
Proof.
  intros Hw1 (Hext & Hv & new & Hq & Hnd & Hnew & Hno & Hall).
  split; [chain|]. split; [done|]. exists new. repeat split; try done.
  intros soup Hsoup. apply Hall.
  destruct Hw1 as (_ & Hreq & _). by rewrite Hreq, app_nil_r.
Qed.

Abbreviation crawl_iteration' :=
  (crawl_iteration urlparse urljoin fetch task_id base_domain max_depth_setting).
Abbreviation crawl_loop' fuel :=
  (crawl_loop urlparse urljoin fetch fuel task_id base_domain max_depth_setting).

Lemma crawl_iteration_spec st current_url depth queue w :
  urls_to_visit st = (current_url, depth) :: queue →
  tasks_lock w = false →
  wp (crawl_iteration' st) w
    (passed st current_url depth queue w)
    (λ e w', w' = w ∧ urlparse current_url = Err e).
Proof.
  intros Hq Hlock. unfold crawl_iteration. rewrite Hq.
  case_bool_decide as Hvisited.
  { apply wp_ret. left. eauto. }
  apply wp_bind, wp_lift_res. unfold is_valid_url at 1.
  destruct (urlparse current_url) as [parsed|e] eqn:Hparse; [|done].
  set (valid := negb _ && negb _ && negb _).
  assert (is_valid_url urlparse current_url = Ok valid) as Hvalid.
  { unfold is_valid_url. by rewrite Hparse. }
  destruct valid eqn:Hv; simpl.
  2:{ apply wp_ret. left. repeat split; try done. right.
      intros (p & _ & ? & _). congruence. }
  apply wp_bind, wp_ret.
  case_bool_decide as Hnet; simpl.
  2:{ apply wp_ret. left. repeat split; try done. right.
      intros (p & ? & _ & ?). congruence. }
  apply wp_bind, wp_log_progress; [done|]. intros w1 Hw1.
  eapply wp_mono; [apply scrape_page_spec; by eapply extends_lock| |done].
  intros st' w' Hdone. right. split; [done|]. split; [by exists parsed|].
  by eapply page_done_quiet_l.
Qed.

(** A dropped element changes nothing but the queue. *)
Lemma crawl_iteration_skip st current_url depth queue w :
  urls_to_visit st = (current_url, depth) :: queue →
  current_url ∈ visited_urls st
  ∨ is_valid_url urlparse current_url = Ok false
  ∨ (∃ p, urlparse current_url = Ok p ∧ netloc p ≠ base_domain) →
  crawl_iteration' st w
  = Return (CrawlState (visited_urls st) (emails_collected st) queue) w.
Proof.
  intros Hq Hskip. unfold crawl_iteration. rewrite Hq.
  case_bool_decide as Hvisited; [done|].
  destruct Hskip as [?|[Hinv|(p & Hp & Hnet)]]; [done|..].
  - unfold bind. by rewrite Hinv.
  - unfold bind, is_valid_url. rewrite Hp. simpl.
    destruct (negb _ && negb _ && negb _); [|done]. simpl.
    by rewrite bool_decide_eq_false_2.
Qed.

(** Queue entries of depth 1 or more, new and on the site, are visited
    one after the other, in order, and nothing is queued. *)
Lemma crawl_loop_pending queue :
  ∀ st w fuel,
    urls_to_visit st = queue →
    tasks_lock w = false →
    NoDup queue.*1 →
    Forall (λ x, x.2 ≠ O ∧ (x.1 ∉ visited_urls st) ∧ same_site (x.1)) queue →
    (length queue ≤ fuel)%nat →
    wp (crawl_loop' fuel st) w (λ _ w', extends w w' queue.*1) never.
Proof.
  induction queue as [|[u d] queue IH]; intros st w fuel Hq Hlock Hnd Hall Hfuel.
  { destruct fuel; simpl; rewrite Hq; apply wp_ret, extends_refl. }
  destruct fuel as [|fuel]; [simpl in Hfuel; lia|].
  cbn [crawl_loop]. rewrite Hq.
  apply Forall_cons in Hall as [(Hd & Hu & Hsite) Hall]. simpl in Hd, Hu, Hsite.
  apply NoDup_cons in Hnd as [Hfresh Hnd].
  apply wp_bind.
  eapply wp_mono; [by apply (crawl_iteration_spec st u d queue)| |].
  2:{ intros e w' [_ He]. destruct Hsite as (p & ? & _). congruence. }
  intros st' w' [(_ & _ & [?|?])|(_ & _ & Hdone)]; [done..|].
  destruct Hdone as (Hext & Hv & new & Hq' & _ & _ & Hno & _).
  rewrite (Hno (or_introl Hd)), app_nil_r in Hq'.
  eapply wp_mono; [apply (IH st' w' fuel)| |done]; try done.
  - by eapply extends_lock.
  - rewrite Forall_forall in Hall. apply Forall_forall. intros [u' d'] Hin.
    destruct (Hall _ Hin) as (? & ? & ?). cbn [fst snd] in *. rewrite Hv.
    repeat split; try done.
    intros [?|Heq%elem_of_singleton]%elem_of_union; [done|].
    apply Hfresh. apply list_elem_of_fmap. exists (u', d'). by split.
  - simpl in Hfuel. lia.
  - intros ? w'' Hw''. cbv beta in Hw''. rewrite fmap_cons. cbn [fst].
    by apply (extends_trans w w' w'' [u] queue.*1).
Qed.



(** A run from a valid seed: the first pass visits the seed and leaves the
    queue [queued]; the passes after it visit the queued pages in order. *)
Lemma crawl_loop_from_seed base_url p0 w :
  tasks_lock w = false →
  urlparse base_url = Ok p0 →
  is_valid_url urlparse base_url = Ok true →
  netloc p0 = base_domain →
  ∃ st1 w1,
    crawl_iteration' (initial_crawl_state base_url) w = Return st1 w1
    ∧ page_done base_url O {[base_url]} [] w st1 w1
    ∧ ∀ fuel, (S (length (urls_to_visit st1)) ≤ fuel)%nat →
        wp (crawl_loop' fuel (initial_crawl_state base_url)) w
          (λ _ w', extends w w' (base_url :: (urls_to_visit st1).*1)) never.
Proof.
  intros Hlock Hp0 Hvalid Hnet.
  pose proof (crawl_iteration_spec (initial_crawl_state base_url) base_url O []
                w eq_refl Hlock) as Hwp.
  unfold wp in Hwp.
  destruct (crawl_iteration' (initial_crawl_state base_url) w)
    as [st1 w1|e w1| |] eqn:Hrun; [|destruct Hwp; congruence|done..].
  destruct Hwp as [(_ & _ & [?|Hno])|(_ & _ & Hdone)].
  { done. }
  { destruct Hno. by exists p0. }
  simpl in Hdone. rewrite (left_id_L ∅ (∪)) in Hdone.
  exists st1, w1. split; [done|]. split; [done|].
  intros [|fuel] Hfuel; [lia|]. cbn [crawl_loop initial_crawl_state urls_to_visit].
  unfold bind, wp. fold (initial_crawl_state base_url). rewrite Hrun.
  destruct Hdone as (Hext & Hv & new & Hq & Hnd & Hnew & _).
  simpl in Hq, Hnd.
  eapply wp_mono;
    [apply (crawl_loop_pending (urls_to_visit st1) st1 w1 fuel)| |done];
    try done.
  - by eapply extends_lock.
  - rewrite Hq. apply Hnd, NoDup_nil_2.
  - rewrite Hq, Hv. eapply Forall_impl; [exact Hnew|].
    intros x (-> & ? & ?). done.
  - lia.
  - intros ? w' Hw'. cbv beta in Hw'.
    by apply (extends_trans w w1 w' [base_url]).
Qed.

End crawl_facts.

(** ** Crawl Engine: a whole run *)

Section crawl_run.

Context (urlparse : string → res parse_result).
Context (urljoin : string → string → res string).
Context (fetch : nat → string → res page).
Context (task_id : string) (max_depth_setting delay : Z).

Local Abbreviation scrape fuel base_url :=
  (scrape_website_emails_for_task urlparse urljoin fetch fuel base_url task_id
     max_depth_setting delay).

Lemma scrape_raises fuel base_url e w :
  is_valid_url urlparse base_url = Err e → scrape fuel base_url w = Raise e w.
Proof.
  intros He. unfold scrape_website_emails_for_task, bind. by rewrite He.
Qed.

Lemma scrape_invalid_seed fuel base_url w :
  tasks_lock w = false →
  is_valid_url urlparse base_url = Ok false →
  ∃ w', scrape fuel base_url w = Return ∅ w' ∧ extends w w' [].
Proof.
  intros Hlock Hinv. unfold scrape_website_emails_for_task, bind.
  rewrite Hinv. simpl. unfold with_tasks_lock. rewrite Hlock.
  cbn [tasks set_tasks_lock].
  destruct (tasks w !! task_id) as [t|] eqn:Ht;
    [destruct (progress_messages t)|]; simpl;
    eexists; (split; [reflexivity|]).
  - unfold extends. destruct w; simpl in *.
    rewrite app_nil_r, dom_insert_L.
    repeat split; try done. apply elem_of_dom_2 in Ht.
    apply set_eq. intros k. rewrite elem_of_union, elem_of_singleton.
    split; [intros [->|?]; done|by right].
  - unfold extends. destruct w; simpl in *. by rewrite app_nil_r.
  - unfold extends. destruct w; simpl in *. by rewrite app_nil_r.
Qed.

Lemma scrape_valid_seed base_url p0 w :
  tasks_lock w = false →
  urlparse base_url = Ok p0 →
  is_valid_url urlparse base_url = Ok true →
  ∃ w0 st1 w1,
    log_progress task_id
      ("Starting scrape for: " +:+ base_url +:+ " with depth "
       +:+ pretty max_depth_setting) w = Return tt w0
    ∧ crawl_iteration urlparse urljoin fetch task_id (netloc p0)
        max_depth_setting (initial_crawl_state base_url) w0 = Return st1 w1
    ∧ page_done urlparse urljoin fetch (netloc p0) max_depth_setting
        base_url O {[base_url]} [] w st1 w1
    ∧ ∀ fuel, (S (length (urls_to_visit st1)) ≤ fuel)%nat →
        ∃ emails w',
          scrape fuel base_url w = Return emails w'
          ∧ extends w w' (base_url :: (urls_to_visit st1).*1).
Proof.
  intros Hlock Hp0 Hvalid.
  destruct (log_progress_returns task_id
              ("Starting scrape for: " +:+ base_url +:+ " with depth "
               +:+ pretty max_depth_setting) w Hlock) as (w0 & Hlog & Hw0).
  destruct (crawl_loop_from_seed urlparse urljoin fetch task_id (netloc p0)
              max_depth_setting base_url p0 w0)
    as (st1 & w1 & Hpass & Hdone & Hloop); try done.
  { by eapply extends_lock. }
  exists w0, st1, w1. split; [done|]. split; [done|].
  split; [by eapply page_done_quiet_l|].
  intros fuel Hfuel. specialize (Hloop fuel Hfuel).
  unfold scrape_website_emails_for_task, bind. rewrite Hvalid. simpl.
  rewrite Hp0. simpl. rewrite Hlog. unfold wp in Hloop.
  destruct (crawl_loop _ _ _ _ _ _ _ _ w0) as [emails w'| | |]; try done.
  exists emails, w'. split; [done|]. by eapply extends_quiet_l.
Qed.

End crawl_run.

(** ** Crawl Engine: the claims *)

(** C1: with the lock free, a call of [scrape_website_emails_for_task] ends
    for every seed and every answer of the network once the iteration bound
    is large enough, and the addresses it has requested are pairwise
    distinct and all have the authority of the seed; a queue element that is
    already visited, fails the Validator or has another authority is
    dropped, and the loop goes on with the rest of the queue in the same
    state. *)
Theorem crawl_visits_once_same_authority
    (urlparse : string → res parse_result)
    (urljoin : string → string → res string)
    (fetch : nat → string → res page)
    (base_url task_id : string) (max_depth_setting delay : Z) (w : world) :
  tasks_lock w = false →
  (∃ n, ∀ fuel, (n ≤ fuel)%nat →
     ∃ w' tr,
       ends_in (scrape_website_emails_for_task urlparse urljoin fetch fuel
                  base_url task_id max_depth_setting delay w) w'
       ∧ requests w' = requests w ++ tr
       ∧ NoDup tr
       ∧ ∀ u, u ∈ tr →
           ∃ p p0, urlparse u = Ok p ∧ urlparse base_url = Ok p0
                   ∧ netloc p = netloc p0)
  ∧ (∀ base_domain st current_url depth queue w0 fuel,
       urls_to_visit st = (current_url, depth) :: queue →
       current_url ∈ visited_urls st
       ∨ is_valid_url urlparse current_url = Ok false
       ∨ (∃ p, urlparse current_url = Ok p ∧ netloc p ≠ base_domain) →
       crawl_loop urlparse urljoin fetch (S fuel) task_id base_domain
         max_depth_setting st w0
       = crawl_loop urlparse urljoin fetch fuel task_id base_domain
           max_depth_setting
           (CrawlState (visited_urls st) (emails_collected st) queue) w0).
Proof.
  intros Hlock. split.
  - destruct (is_valid_url urlparse base_url) as [[]|e] eqn:Hvalid.
    + destruct (is_valid_url_parsed _ _ _ Hvalid) as [p0 Hp0].
      destruct (scrape_valid_seed urlparse urljoin fetch task_id
                  max_depth_setting delay base_url p0 w Hlock Hp0 Hvalid)
        as (w0 & st1 & w1 & _ & _ & Hdone & Hrun).
      exists (S (length (urls_to_visit st1))). intros fuel Hfuel.
      destruct (Hrun fuel Hfuel) as (emails & w' & Hret & _ & Hreq & _).
      exists w', (base_url :: (urls_to_visit st1).*1).
      split; [left; by exists emails|]. split; [done|].
      destruct Hdone as (_ & _ & new & Hq & Hnd & Hnew & _).
      simpl in Hq, Hnd. rewrite Hq. split.
      * apply NoDup_cons. split; [|apply Hnd, NoDup_nil_2].
        intros ([u d] & -> & Hin)%list_elem_of_fmap.
        rewrite Forall_forall in Hnew. destruct (Hnew _ Hin) as (_ & Hu & _).
        apply Hu. by apply elem_of_singleton.
      * intros u [->|([u' d] & -> & Hin)%list_elem_of_fmap]%elem_of_cons.
        { by exists p0, p0. }
        rewrite Forall_forall in Hnew.
        destruct (Hnew _ Hin) as (_ & _ & p & Hp & _ & Hnet).
        by exists p, p0.
    + destruct (scrape_invalid_seed urlparse urljoin fetch task_id
                  max_depth_setting delay O base_url w Hlock Hvalid)
        as (w' & _ & _ & Hreq & _).
      exists O. intros fuel _.
      destruct (scrape_invalid_seed urlparse urljoin fetch task_id
                  max_depth_setting delay fuel base_url w Hlock Hvalid)
        as (w'' & Hret & _ & Hreq' & _).
      exists w'', []. split; [left; by exists ∅|]. split; [done|].
      split; [apply NoDup_nil_2|]. by intros u ?%elem_of_nil.
    + exists O. intros fuel _. exists w, [].
      split; [right; exists e; by apply scrape_raises|].
      rewrite app_nil_r. split; [done|].
      split; [apply NoDup_nil_2|]. by intros u ?%elem_of_nil.
  - intros base_domain st current_url depth queue w0 fuel Hq Hskip.
    cbn [crawl_loop]. rewrite Hq. unfold bind.
    by rewrite (crawl_iteration_skip urlparse urljoin fetch task_id base_domain
                  max_depth_setting st current_url depth queue w0 Hq Hskip).
Qed.

(** An instance of C1: the sample site, with the lock free. *)
Lemma crawl_visits_once_same_authority_witness :
  tasks_lock (Sample.world0 "t1" ["http://site.org"]) = false
  ∧ ∃ n, ∀ fuel, (n ≤ fuel)%nat →
      ∃ w' tr,
        ends_in (scrape_website_emails_for_task Sample.urlparse Sample.urljoin
                   Sample.fetch fuel "http://site.org" "t1" MAX_DEPTH
                   POLITE_DELAY (Sample.world0 "t1" ["http://site.org"])) w'
        ∧ requests w'
          = requests (Sample.world0 "t1" ["http://site.org"]) ++ tr
        ∧ NoDup tr
        ∧ ∀ u, u ∈ tr →
            ∃ p p0, Sample.urlparse u = Ok p
                    ∧ Sample.urlparse "http://site.org" = Ok p0
                    ∧ netloc p = netloc p0.
Proof.
  split; [reflexivity|].
  apply (crawl_visits_once_same_authority Sample.urlparse Sample.urljoin
           Sample.fetch "http://site.org" "t1" MAX_DEPTH POLITE_DELAY
           (Sample.world0 "t1" ["http://site.org"])).
  reflexivity.
Defined.



(** ** Task Runner *)

Lemma bind_return_inv {A B} (m : M A) (f : A → M B) w b w' :
  bind m f w = Return b w' → ∃ a w1, m w = Return a w1 ∧ f a w1 = Return b w'.
Proof. unfold bind. destruct (m w) as [a w1| | |]; [eauto|done..]. Qed.

Lemma log_progress_inv task_id message w a w' :
  log_progress task_id message w = Return a w' →
  tasks_lock w = false ∧ extends w w' [].
Proof.
  intros Hlog. destruct (tasks_lock w) eqn:Hlock.
  { by rewrite log_progress_blocks in Hlog. }
  destruct (log_progress_returns task_id message w Hlock) as (w'' & Hw'' & Hext).
  split; [done|]. congruence.
Qed.

Lemma update_task_locked_inv task_id f w a w' :
  with_tasks_lock (update_task task_id f) w = Return a w' →
  ∃ t, tasks w !! task_id = Some t
       ∧ w' = World (<[task_id := f t]> (tasks w)) false (requests w) (files w)
                (logging w).
Proof.
  unfold with_tasks_lock, update_task. destruct (tasks_lock w); [done|].
  cbn [tasks set_tasks_lock]. destruct (tasks w !! task_id) as [t|]; [|done].
  intros [= _ <-]. by exists t.
Qed.

Section runner_facts.

Context (urlparse : string → res parse_result).
Context (urljoin : string → string → res string).
Context (fetch : nat → string → res page).
Context (open_w : string → res unit).

Local Abbreviation scrape_sites' :=
  (scrape_sites urlparse urljoin fetch).
Local Abbreviation crawls_return' :=
  (crawls_return urlparse urljoin fetch).

Lemma scrape_sites_rows fuel task_id total sites :
  ∀ i data w data' w',
    scrape_sites' fuel task_id total i sites data w = Return data' w' →
    ∃ results,
      crawls_return' fuel task_id sites w results w'
      ∧ data' = data ++ zip_with (λ site emails, (site, emails_cell emails))
                          sites results.
Proof.
  induction sites as [|site sites IH]; intros i data w data' w' Hrun.
  { injection Hrun as <- <-. exists []. split; [constructor|].
    by rewrite app_nil_r. }
  cbn [scrape_sites] in Hrun.
  apply bind_return_inv in Hrun as (? & wa & [_ Hwa]%log_progress_inv & Hrun).
  apply bind_return_inv in Hrun as (emails & wb & Hscrape & Hrun).
  apply bind_return_inv in Hrun as (? & wc & Hlog & Hrun).
  assert (extends wb wc []) as Hwc.
  { destruct (bool_decide (emails = ∅)); by apply log_progress_inv in Hlog as [_ ?]. }
  apply IH in Hrun as (results & Hrest & ->).
  exists (emails :: results). split; [by econstructor|].
  by rewrite <- app_assoc.
Qed.

Lemma crawls_return_length fuel task_id sites w results w' :
  crawls_return' fuel task_id sites w results w' → length results = length sites.
Proof. induction 1; simpl; congruence. Qed.

(** *** The iteration bound

    A call that ends within the bound ends in the same way under every
    larger bound. *)

Lemma bind_fuel_mono {A B} (m m' : M A) (f g : A → M B) w :
  (m w ≠ OutOfFuel → m' w = m w) →
  (∀ a w1, f a w1 ≠ OutOfFuel → g a w1 = f a w1) →
  bind m f w ≠ OutOfFuel → bind m' g w = bind m f w.
Proof.
  unfold bind. intros Hm Hfg.
  destruct (m w) eqn:Hmw; [|by rewrite Hm..|done].
  rewrite Hm by done. apply Hfg.
Qed.

Lemma crawl_loop_fuel_mono task_id base_domain max_depth_setting n :
  ∀ m st w,
    (n ≤ m)%nat →
    crawl_loop urlparse urljoin fetch n task_id base_domain max_depth_setting
      st w ≠ OutOfFuel →
    crawl_loop urlparse urljoin fetch m task_id base_domain max_depth_setting
      st w
    = crawl_loop urlparse urljoin fetch n task_id base_domain max_depth_setting
        st w.
Proof.
  induction n as [|n IH]; intros m st w Hnm Hn.
  - destruct m; [done|]. cbn [crawl_loop] in *.
    by destruct (urls_to_visit st).
  - destruct m as [|m]; [lia|]. cbn [crawl_loop] in *.
    destruct (urls_to_visit st); [done|].
    apply bind_fuel_mono; [done| |done].
    intros st' w' Hst'. apply IH; [lia|done].
Qed.

Local Abbreviation scrape fuel base_url task_id :=
  (scrape_website_emails_for_task urlparse urljoin fetch fuel base_url task_id
     MAX_DEPTH POLITE_DELAY).

Lemma scrape_fuel_mono n m base_url task_id w :
  (n ≤ m)%nat →
  scrape n base_url task_id w ≠ OutOfFuel →
  scrape m base_url task_id w = scrape n base_url task_id w.
Proof.
  intros Hnm. unfold scrape_website_emails_for_task.
  apply bind_fuel_mono; [done|]. intros [] w1; [|done]. simpl.
  apply bind_fuel_mono; [done|]. intros p w2.
  apply bind_fuel_mono; [done|]. intros _ w3. by apply crawl_loop_fuel_mono.
Qed.

Lemma scrape_sites_fuel_mono n m task_id total sites :
  (n ≤ m)%nat →
  ∀ i data w,
    scrape_sites' n task_id total i sites data w ≠ OutOfFuel →
    scrape_sites' m task_id total i sites data w
    = scrape_sites' n task_id total i sites data w.
Proof.
  intros Hnm. induction sites as [|site sites IH]; intros i data w; [done|].
  cbn [scrape_sites].
  apply bind_fuel_mono; [done|]. intros _ w1.
  apply bind_fuel_mono; [by apply scrape_fuel_mono|]. intros emails w2.
  apply bind_fuel_mono; [done|]. intros _ w3. apply IH.
Qed.

Lemma scraping_task_fuel_mono n m task_id sites w :
  (n ≤ m)%nat →
  scraping_task urlparse urljoin fetch open_w n task_id sites w ≠ OutOfFuel →
  scraping_task urlparse urljoin fetch open_w m task_id sites w
  = scraping_task urlparse urljoin fetch open_w n task_id sites w.
Proof.
  intros Hnm. unfold scraping_task.
  apply bind_fuel_mono; [done|]. intros _ w1.
  apply bind_fuel_mono; [by apply scrape_sites_fuel_mono|]. done.
Qed.

(** Every call ends within some bound. *)

Lemma log_progress_in_bound task_id message w :
  log_progress task_id message w ≠ OutOfFuel.
Proof.
  unfold log_progress, with_tasks_lock. destruct (tasks_lock w); [done|].
  by destruct (tasks (set_tasks_lock true w) !! task_id).
Qed.

Lemma scrape_total base_url task_id w :
  tasks_lock w = false →
  ∃ n, scrape n base_url task_id w ≠ OutOfFuel
       ∧ ∀ emails w', scrape n base_url task_id w = Return emails w' →
                      tasks_lock w' = false.
Proof.
  intros Hlock. destruct (is_valid_url urlparse base_url) as [[]|e] eqn:Hvalid.
  - destruct (is_valid_url_parsed _ _ _ Hvalid) as [p0 Hp0].
    destruct (scrape_valid_seed urlparse urljoin fetch task_id MAX_DEPTH
                POLITE_DELAY base_url p0 w Hlock Hp0 Hvalid)
      as (w0 & st1 & w1 & _ & _ & _ & Hrun).
    exists (S (length (urls_to_visit st1))).
    destruct (Hrun _ (le_n _)) as (emails & w' & Hret & Hext).
    rewrite Hret. split; [done|]. intros ?? [= _ <-]. by eapply extends_lock.
  - destruct (scrape_invalid_seed urlparse urljoin fetch task_id MAX_DEPTH
                POLITE_DELAY O base_url w Hlock Hvalid) as (w' & Hret & Hext).
    exists O. rewrite Hret. split; [done|]. intros ?? [= _ <-].
    by eapply extends_lock.
  - exists O. rewrite (scrape_raises _ _ _ _ _ _ _ _ e) by done. by split.
Qed.

Lemma scrape_sites_total task_id total sites :
  ∀ i data w,
    tasks_lock w = false →
    ∃ n, scrape_sites' n task_id total i sites data w ≠ OutOfFuel.
Proof.
  induction sites as [|site sites IH]; intros i data w Hlock; [by exists O|].
  cbn [scrape_sites].
  destruct (log_progress_returns task_id
              ("--- Processing website " +:+ pretty (i + 1)%nat +:+ "/"
               +:+ pretty total +:+ ": " +:+ site +:+ " ---") w Hlock)
    as (w1 & Hlog1 & Hw1).
  assert (tasks_lock w1 = false) as Hlock1 by (by eapply extends_lock).
  destruct (scrape_total site task_id w1 Hlock1) as (n1 & Hn1 & Hlock2).
  destruct (scrape n1 site task_id w1) as [emails w2|e w2|w2|] eqn:Hscrape;
    [|exists n1; unfold bind; by rewrite Hlog1, Hscrape..|done].
  specialize (Hlock2 emails w2 eq_refl).
  set (message :=
         if bool_decide (emails = ∅)
         then "  No emails found for " +:+ site +:+ " (or an error occurred)."
         else "  Successfully scraped " +:+ pretty (size emails)
              +:+ " email(s) from " +:+ site +:+ ": " +:+ emails_cell emails).
  destruct (log_progress_returns task_id message w2 Hlock2)
    as (w3 & Hlog3 & Hw3).
  assert (tasks_lock w3 = false) as Hlock3 by (by eapply extends_lock).
  destruct (IH (S i) (data ++ [(site, emails_cell emails)]) w3 Hlock3)
    as (n2 & Hn2).
  exists (Nat.max n1 n2). unfold bind. rewrite Hlog1.
  rewrite (scrape_fuel_mono n1), Hscrape by (lia || by rewrite Hscrape).
  assert ((if bool_decide (emails = ∅)
           then log_progress task_id
                  ("  No emails found for " +:+ site
                   +:+ " (or an error occurred).")
           else log_progress task_id
                  ("  Successfully scraped " +:+ pretty (size emails)
                   +:+ " email(s) from " +:+ site +:+ ": "
                   +:+ emails_cell emails)) w2 = Return tt w3) as ->.
  { unfold message in Hlog3. by destruct (bool_decide (emails = ∅)). }
  by rewrite (scrape_sites_fuel_mono n2) by (lia || done).
Qed.

Lemma report_error_in_bound task_id e w : report_error task_id e w ≠ OutOfFuel.
Proof.
  unfold report_error, bind, modify, with_tasks_lock. simpl.
  destruct (tasks_lock w); [done|]. destruct (tasks w !! task_id); [|done].
  by rewrite log_progress_blocks.
Qed.

Lemma run_scraping_task_thread_total task_id sites w :
  tasks_lock w = false →
  ∃ n, run_scraping_task_thread urlparse urljoin fetch open_w n task_id sites w
       ≠ OutOfFuel
       ∧ ∀ fuel, (n ≤ fuel)%nat →
           run_scraping_task_thread urlparse urljoin fetch open_w fuel task_id
             sites w
           = run_scraping_task_thread urlparse urljoin fetch open_w n task_id
               sites w.
Proof.
  intros Hlock.
  assert (∃ n, scraping_task urlparse urljoin fetch open_w n task_id sites w
               ≠ OutOfFuel) as [n Hn].
  { unfold scraping_task, bind.
    destruct (with_tasks_lock (update_task task_id set_processing) w)
      as [[] w1|e w1|w1|] eqn:Hupd; [|by exists O..|].
    2:{ unfold with_tasks_lock, update_task in Hupd. rewrite Hlock in Hupd.
        cbn [tasks set_tasks_lock] in Hupd.
        by destruct (tasks w !! task_id). }
    apply update_task_locked_inv in Hupd as (t & Ht & ->).
    destruct (scrape_sites_total task_id (length sites) sites O []
                (World (<[task_id:=set_processing t]> (tasks w)) false
                   (requests w) (files w) (logging w)) eq_refl) as (n & Hn).
    exists n. destruct (scrape_sites _ _ _ _ _ _ _ _ _ _) as [data w2| | |];
      [|done..].
    unfold write_csv. destruct (open_w _); [|done]. simpl.
    destruct (log_progress _ _ _) eqn:Hlog; [|done..|].
    - unfold with_tasks_lock, update_task. destruct (tasks_lock w0); [done|].
      by destruct (tasks (set_tasks_lock true w0) !! task_id).
    - by apply log_progress_in_bound in Hlog. }
  exists n. unfold run_scraping_task_thread, try_except. split.
  - destruct (scraping_task _ _ _ _ _ _ _ _) eqn:Hrun; try done.
    apply report_error_in_bound.
  - intros fuel Hfuel. by rewrite (scraping_task_fuel_mono n fuel).
Qed.

End runner_facts.

Lemma data_rows_zip (sites : list string) (results : list (gset string)) :
  csv_rows (zip_with (λ site emails, (site, emails_cell emails)) sites results)
  = csv_header :: data_rows sites results.
Proof.
  unfold csv_rows, data_rows. f_equal. revert results.
  induction sites as [|site sites IH]; intros [|emails results]; simpl; try done.
  by rewrite IH.
Qed.

Lemma data_rows_lookup (sites : list string) (results : list (gset string)) i site :
  length results = length sites →
  sites !! i = Some site →
  ∃ emails, results !! i = Some emails
            ∧ data_rows sites results !! i = Some [site; emails_cell emails].
Proof.
  intros Hlen Hsite. unfold data_rows.
  destruct (lookup_lt_is_Some_2 results i) as [emails Hemails].
  { rewrite Hlen. by eapply lookup_lt_Some. }
  exists emails. split; [done|]. rewrite lookup_zip_with, Hsite. simpl.
  by rewrite Hemails.
Qed.

(** C4: with the lock free, the Task Runner ends within some iteration
    bound; and when the statements under [try] return for a batch of N
    sites, so does the runner, the task is complete with the name of the
    artifact, and the artifact holds the header [Website,Emails Found] and
    then N rows, the i-th for the i-th site: its second cell is the sentinel
    when the crawl of that site returned the empty set, else the emails
    found, sorted and joined with a comma and a space. *)
Theorem task_artifact_rows
    (urlparse : string → res parse_result)
    (urljoin : string → string → res string)
    (fetch : nat → string → res page)
    (open_w : string → res unit)
    (task_id : string) (sites : list string) (w : world) :
  tasks_lock w = false →
  (∃ n,
     run_scraping_task_thread urlparse urljoin fetch open_w n task_id sites w
     ≠ OutOfFuel
     ∧ ∀ fuel, (n ≤ fuel)%nat →
         run_scraping_task_thread urlparse urljoin fetch open_w fuel task_id
           sites w
         = run_scraping_task_thread urlparse urljoin fetch open_w n task_id
             sites w)
  ∧ (∀ fuel w',
       scraping_task urlparse urljoin fetch open_w fuel task_id sites w
       = Return tt w' →
       run_scraping_task_thread urlparse urljoin fetch open_w fuel task_id
         sites w = Return tt w'
       ∧ ∃ results w1 w2,
           crawls_return urlparse urljoin fetch fuel task_id sites w1 results w2
           ∧ length results = length sites
           ∧ files w' !! os_path_join TEMP_DIR (csv_name task_id)
             = Some (["Website"; "Emails Found"] :: data_rows sites results)
           ∧ length (data_rows sites results) = length sites
           ∧ (∀ i site, sites !! i = Some site →
                ∃ emails, results !! i = Some emails
                          ∧ data_rows sites results !! i
                            = Some [site; emails_cell emails])
           ∧ ∃ t, tasks w' !! task_id = Some t ∧ status t = complete
                  ∧ filename t = Some (csv_name task_id))
  ∧ emails_cell ∅ = "NO_EMAILS_FOUND_OR_ERROR"
  ∧ (∀ emails : gset string, emails ≠ ∅ →
       emails_cell emails = PyStr.join ", " (PyStr.sorted (elements emails))
       ∧ Sorted String.le (PyStr.sorted (elements emails))
       ∧ PyStr.sorted (elements emails) ≡ₚ elements emails).
Proof.
  intros Hlock. split; [by apply run_scraping_task_thread_total|].
  split; [|split; [done|]].
  - intros fuel w' Hrun. split.
    { unfold run_scraping_task_thread, try_except. by rewrite Hrun. }
    unfold scraping_task in Hrun.
    apply bind_return_inv in Hrun as (? & w1 & _ & Hrun).
    apply bind_return_inv in Hrun as (data & w2 & Hsites & Hrun).
    apply scrape_sites_rows in Hsites as (results & Hcrawls & ->).
    rewrite app_nil_l in Hrun.
    apply bind_return_inv in Hrun as (? & w3 & Hcsv & Hrun).
    apply bind_return_inv in Hrun as (? & w4 & [_ Hw4]%log_progress_inv & Hrun).
    apply update_task_locked_inv in Hrun as (t & Ht & ->).
    unfold write_csv in Hcsv. destruct (open_w _); [|done].
    injection Hcsv as Hcsv. subst w3. rewrite data_rows_zip in Hw4.
    pose proof (crawls_return_length _ _ _ _ _ _ _ _ _ Hcrawls) as Hlen.
    exists results, w1, w2. split; [done|]. split; [done|].
    destruct Hw4 as (_ & _ & Hfiles & _). cbn [files]. rewrite Hfiles.
    cbn [files set_file]. rewrite lookup_insert_eq. split; [done|].
    split; [|split].
    + unfold data_rows. rewrite length_zip_with. lia.
    + intros i site. by apply data_rows_lookup.
    + eexists. cbn [tasks]. rewrite lookup_insert_eq. by split.
  - intros emails Hne. unfold emails_cell, PyStr.sorted.
    rewrite bool_decide_eq_false_2 by done. split; [done|].
    split; [apply Sorted_merge_sort, _|apply merge_sort_Permutation].
Qed.

(** An instance of C4: a batch of three sites in the sample environment. *)
Lemma task_artifact_rows_witness :
  tasks_lock (Sample.world0 "t1" ["http://site.org"; "ftp//x"; "http://nowhere.org"])
  = false
  ∧ ∃ w',
      run_scraping_task_thread Sample.urlparse Sample.urljoin Sample.fetch
        Sample.open_w 3 "t1" ["http://site.org"; "ftp//x"; "http://nowhere.org"]
        (Sample.world0 "t1" ["http://site.org"; "ftp//x"; "http://nowhere.org"])
      = Return tt w'
      ∧ files w' !! "temp_files/scraped_emails_t1.csv"
        = Some [["Website"; "Emails Found"];
                ["http://site.org"; "help@site.org, info@site.org, sales@site.org"];
                ["ftp//x"; "NO_EMAILS_FOUND_OR_ERROR"];
                ["http://nowhere.org"; "NO_EMAILS_FOUND_OR_ERROR"]].
Proof.
  split; [reflexivity|].
  destruct (task_artifact_rows Sample.urlparse Sample.urljoin Sample.fetch
              Sample.open_w "t1" ["http://site.org"; "ftp//x"; "http://nowhere.org"]
              (Sample.world0 "t1" ["http://site.org"; "ftp//x"; "http://nowhere.org"])
              eq_refl) as (_ & Hrows & _).
  destruct (scraping_task Sample.urlparse Sample.urljoin Sample.fetch
              Sample.open_w 3 "t1" ["http://site.org"; "ftp//x"; "http://nowhere.org"]
              (Sample.world0 "t1" ["http://site.org"; "ftp//x"; "http://nowhere.org"]))
    as [[] w'| | |] eqn:Hrun; [|by vm_compute in Hrun..].
  exists w'. split; [by apply Hrows|].
  vm_compute in Hrun. injection Hrun as <-. reflexivity.
Defined.

(** ** A failed run *)

(** When the statements under [try] raise and the task exists, the handler
    records the error and then calls [log_progress] with the lock held: the
    thread blocks there, and the lock stays held. *)
Lemma report_error_blocks (task_id e : string) (w : world) (t : task) :
  tasks_lock w = false →
  tasks w !! task_id = Some t →
  report_error task_id e w
  = Blocked
      (World (<[task_id := set_error e t]> (tasks w)) true (requests w) (files w)
         (logging w
          ++ ["Error in scraping task " +:+ task_id +:+ ": " +:+ e])).
Proof.
  intros Hlock Ht. unfold report_error, bind, modify, with_tasks_lock.
  cbn [tasks_lock add_logging tasks set_tasks_lock]. rewrite Hlock, Ht.
  by rewrite log_progress_blocks.
Qed.

(** C6 (the program departs from it): when the statements under [try]
    raise [e] and the task exists, the record gets the status Error, the
    text [e] and no file name, but the runner then blocks with the lock
    held, so that every later poll of an observer blocks too and the
    terminal ERROR event is never sent.  So it is for the batch
    [http://[], on which [urlparse] raises. *)
Theorem failed_run_blocks_observers :
  (∀ urlparse urljoin fetch open_w fuel task_id sites w e w1 t,
     scraping_task urlparse urljoin fetch open_w fuel task_id sites w
     = Raise e w1 →
     tasks_lock w1 = false →
     tasks w1 !! task_id = Some t →
     ∃ w',
       run_scraping_task_thread urlparse urljoin fetch open_w fuel task_id
         sites w = Blocked w'
       ∧ tasks_lock w' = true
       ∧ tasks w' !! task_id = Some (set_error e t)
       ∧ ∀ last_sent_idx polls,
           poll task_id last_sent_idx w' = PollBlocked
           ∧ generate_from task_id last_sent_idx (w' :: polls) = ([], Stuck))
  ∧ ∃ w',
      run_scraping_task_thread Sample.urlparse Sample.urljoin Sample.fetch
        Sample.open_w 1 "t1" ["http://["] (Sample.world0 "t1" ["http://["])
      = Blocked w'
      ∧ tasks_lock w' = true
      ∧ (∃ t, tasks w' !! "t1" = Some t ∧ status t = error
              ∧ error_message t = Some "Invalid IPv6 URL" ∧ filename t = None)
      ∧ files w' = ∅
      ∧ progress_stream "t1" [w'] = ([], Stuck).
Proof.
  split.
  - intros urlparse urljoin fetch open_w fuel task_id sites w e w1 t
      Hrun Hlock Ht.
    eexists. split.
    { unfold run_scraping_task_thread, try_except. rewrite Hrun.
      by apply report_error_blocks. }
    split; [done|]. split; [cbn [tasks]; by rewrite lookup_insert_eq|].
    intros last_sent_idx polls. by split.
  - eexists. split; [by vm_compute|]. split; [done|].
    split; [|by split]. eexists. split; [by vm_compute|]. by split.
Qed.


(** * Further properties *)

(** ** What a call leaves unchanged *)

Section keeps_rules.

Context (R : world → world → Prop) `{!Reflexive R, !Transitive R}.

Lemma keeps_ret {A} (a : A) : keeps R (ret a).
Proof. intros w. simpl. reflexivity. Qed.

Lemma keeps_raise {A} (e : string) : keeps R (@raise A e).
Proof. intros w. simpl. reflexivity. Qed.

Lemma keeps_lift_res {A} (r : res A) : keeps R (lift_res r).
Proof. destruct r; [apply keeps_ret|apply keeps_raise]. Qed.

Lemma keeps_out_of_fuel {A} : keeps R (λ _, @OutOfFuel A).
Proof. by intros w. Qed.

Lemma keeps_bind {A B} (m : M A) (f : A → M B) :
  keeps R m → (∀ a, keeps R (f a)) → keeps R (bind m f).
Proof.
  intros Hm Hf w. specialize (Hm w). unfold bind.
  destruct (m w) as [a w1| | |]; [|done..].
  specialize (Hf a w1). destruct (f a w1); [..|done]; by etrans.
Qed.

Lemma keeps_try_except {A} (body : M A) (handler : string → M A) :
  keeps R body → (∀ e, keeps R (handler e)) → keeps R (try_except body handler).
Proof.
  intros Hm Hf w. specialize (Hm w). unfold try_except.
  destruct (body w) as [|e w1| |]; [done| |done..].
  specialize (Hf e w1). destruct (handler e w1); [..|done]; by etrans.
Qed.

End keeps_rules.

Lemma yields_ret {A} (P : A → Prop) (a : A) : P a → yields P (ret a).
Proof. intros HP w a' w' [= <- _]. done. Qed.

Lemma yields_bind {A B} (Q : A → Prop) (P : B → Prop) (m : M A) (f : A → M B) :
  yields Q m → (∀ a, Q a → yields P (f a)) → yields P (bind m f).
Proof.
  intros Hm Hf w b w' (a & w1 & Ha & Hb)%bind_return_inv.
  eapply Hf; [by eapply Hm|done].
Qed.

Lemma yields_any {A} (m : M A) : yields (λ _, True) m.
Proof. by intros w a w' _. Qed.

Lemma yields_out_of_fuel {A} (P : A → Prop) : yields P (λ _, @OutOfFuel A).
Proof. by intros w a w'. Qed.

Global Instance log_extended_refl : Reflexive log_extended.
Proof. intros t. by repeat split. Qed.

Global Instance log_extended_trans : Transitive log_extended.
Proof.
  intros t1 t2 t3 (?&?&?&?&?&?&?) (?&?&?&?&?&?&?).
  repeat split; try congruence. by etrans.
Qed.

Global Instance only_logs_refl task_id : Reflexive (only_logs task_id).
Proof.
  intros w. split; [done|]. split; [done|].
  destruct (tasks w !! task_id) as [t|] eqn:Ht; [|done]. by exists t.
Qed.

Global Instance only_logs_trans task_id : Transitive (only_logs task_id).
Proof.
  intros w1 w2 w3 (Hf1 & Ho1 & Ht1) (Hf2 & Ho2 & Ht2).
  split; [congruence|]. split; [intros k Hk; by rewrite Ho2, Ho1|].
  destruct (tasks w1 !! task_id) as [t1|].
  - destruct Ht1 as (t2 & Ht2' & H12). rewrite Ht2' in Ht2.
    destruct Ht2 as (t3 & Ht3 & H23). exists t3. split; [done|]. by etrans.
  - by rewrite Ht1 in Ht2.
Qed.

Lemma only_logs_lock task_id b b' w w' :
  only_logs task_id (set_tasks_lock b w) w' →
  only_logs task_id w (set_tasks_lock b' w').
Proof. by destruct w, w'. Qed.

Lemma append_message_extended message t : log_extended t (append_message message t).
Proof. repeat split. simpl. by apply prefix_app_r. Qed.

Lemma keeps_log_progress task_id message :
  keeps (only_logs task_id) (log_progress task_id message).
Proof.
  intros w. unfold log_progress, with_tasks_lock.
  destruct (tasks_lock w); [reflexivity|]. cbn [tasks set_tasks_lock].
  destruct (tasks w !! task_id) as [t|] eqn:Ht.
  - split; [by destruct w|]. split.
    + intros k Hk. destruct w; simpl. by rewrite lookup_insert_ne.
    + rewrite Ht. eexists. split; [destruct w; simpl; apply lookup_insert_eq|].
      apply append_message_extended.
  - split; [by destruct w|]. split; [by destruct w|]. rewrite Ht. by destruct w.
Qed.

Lemma keeps_http_get task_id fetch url :
  keeps (only_logs task_id) (http_get fetch url).
Proof.
  intros w. unfold http_get.
  assert (only_logs task_id w w) as H by reflexivity. by destruct w.
Qed.

Section crawl_keeps.

Context (urlparse : string → res parse_result).
Context (urljoin : string → string → res string).
Context (fetch : nat → string → res page).
Context (task_id : string).

(** One step through a computation built from the operations of the crawl. *)
Ltac keeps_step :=
  cbv zeta;
  lazymatch goal with
  | |- keeps _ (bind _ _) => apply keeps_bind; [apply _..| |intros ?]
  | |- keeps _ (ret _) => apply keeps_ret; apply _
  | |- keeps _ (lift_res _) => apply keeps_lift_res; apply _
  | |- keeps _ (log_progress _ _) => apply keeps_log_progress
  | |- keeps _ (http_get _ _) => apply keeps_http_get
  | |- keeps _ (if ?b then _ else _) => destruct b
  | |- keeps _ (match ?x with _ => _ end) => destruct x
  end.

Lemma keeps_add_mailto_addresses current_url a_tags :
  ∀ page_text,
    keeps (only_logs task_id)
      (add_mailto_addresses task_id current_url a_tags page_text).
Proof.
  induction a_tags as [|a_tag a_tags IH]; intros page_text;
    cbn [add_mailto_addresses]; repeat first [apply IH|keeps_step].
Qed.

Lemma keeps_queue_target_pages current_url base_domain depth visited links :
  ∀ queue found,
    keeps (only_logs task_id)
      (queue_target_pages urlparse urljoin task_id current_url base_domain
         depth visited links queue found).
Proof.
  induction links as [|link links IH]; intros queue found;
    cbn [queue_target_pages]; repeat first [apply IH|keeps_step].
Qed.

Lemma keeps_scrape_page base_domain max_depth_setting current_url depth
    visited emails queue :
  keeps (only_logs task_id)
    (scrape_page urlparse urljoin fetch task_id base_domain max_depth_setting
       current_url depth visited emails queue).
Proof.
  unfold scrape_page.
  repeat first [apply keeps_add_mailto_addresses
               |apply keeps_queue_target_pages|keeps_step].
Qed.

Lemma keeps_crawl_iteration base_domain max_depth_setting st :
  keeps (only_logs task_id)
    (crawl_iteration urlparse urljoin fetch task_id base_domain
       max_depth_setting st).
Proof.
  unfold crawl_iteration.
  repeat first [apply keeps_scrape_page|keeps_step].
Qed.

Lemma keeps_crawl_loop base_domain max_depth_setting fuel :
  ∀ st,
    keeps (only_logs task_id)
      (crawl_loop urlparse urljoin fetch fuel task_id base_domain
         max_depth_setting st).
Proof.
  induction fuel as [|fuel IH]; intros st; cbn [crawl_loop];
    destruct (urls_to_visit st).
  - keeps_step.
  - apply keeps_out_of_fuel.
  - keeps_step.
  - apply keeps_bind; [apply _..|apply keeps_crawl_iteration|apply IH].
Qed.

Lemma keeps_skip_invalid base_url :
  keeps (only_logs task_id)
    (with_tasks_lock (λ w,
       match tasks w !! task_id with
       | Some t =>
           match progress_messages t with
           | Some _ =>
               Return tt
                 (set_tasks
                    <[task_id :=
                        append_message ("Skipping invalid base URL: " +:+ base_url) t]>
                    w)
           | None =>
               Return tt
                 (add_logging
                    ("Task " +:+ task_id
                     +:+ " not found or progress_messages missing when skipping invalid URL "
                     +:+ base_url) w)
           end
       | None =>
           Return tt
             (add_logging
                ("Task " +:+ task_id
                 +:+ " not found or progress_messages missing when skipping invalid URL "
                 +:+ base_url) w)
       end)).
Proof.
  intros w. unfold with_tasks_lock.
  destruct (tasks_lock w); [reflexivity|]. cbn [tasks set_tasks_lock].
  destruct (tasks w !! task_id) as [t|] eqn:Ht;
    [destruct (progress_messages t) eqn:Hpm|].
  - split; [by destruct w|]. split.
    + intros k Hk. destruct w; simpl. by rewrite lookup_insert_ne.
    + rewrite Ht. eexists. split; [destruct w; simpl; apply lookup_insert_eq|].
      apply append_message_extended.
  - split; [by destruct w|]. split; [by destruct w|]. rewrite Ht.
    exists t. split; [by destruct w|reflexivity].
  - split; [by destruct w|]. split; [by destruct w|]. rewrite Ht. by destruct w.
Qed.

Lemma keeps_scrape fuel base_url max_depth_setting delay :
  keeps (only_logs task_id)
    (scrape_website_emails_for_task urlparse urljoin fetch fuel base_url
       task_id max_depth_setting delay).
Proof.
  unfold scrape_website_emails_for_task.
  repeat first [apply keeps_skip_invalid|apply keeps_crawl_loop|keeps_step].
Qed.

End crawl_keeps.

(** X1: however a call of the Crawl Engine for a task ends (by a return,
    by an exception or blocked on the lock), it has written no file, has
    left the records of all other tasks as they were, and in the record of
    its own task has changed nothing but the log, to which it has only
    added lines at the end. *)
Theorem crawl_only_appends_to_log
    (urlparse : string → res parse_result)
    (urljoin : string → string → res string)
    (fetch : nat → string → res page)
    (fuel : nat) (base_url task_id : string) (max_depth_setting delay : Z)
    (w : world) :
  match scrape_website_emails_for_task urlparse urljoin fetch fuel base_url
          task_id max_depth_setting delay w with
  | Return _ w' | Raise _ w' | Blocked w' =>
      files w' = files w
      ∧ (∀ k, k ≠ task_id → tasks w' !! k = tasks w !! k)
      ∧ (∀ t, tasks w !! task_id = Some t →
           ∃ t', tasks w' !! task_id = Some t'
                 ∧ status t' = status t ∧ filename t' = filename t
                 ∧ error_message t' = error_message t
                 ∧ default [] (progress_messages t)
                   `prefix_of` default [] (progress_messages t'))
      ∧ (tasks w !! task_id = None → tasks w' !! task_id = None)
  | OutOfFuel => True
  end.
Proof.
  pose proof (keeps_scrape urlparse urljoin fetch task_id fuel base_url
                max_depth_setting delay w) as H.
  destruct (scrape_website_emails_for_task _ _ _ _ _ _ _ _ w)
    as [? w'|? w'|w'|]; [..|done];
    destruct H as (Hf & Ho & Ht); (split; [done|]); (split; [done|]);
    (split; [intros t Heq|intros Heq]); rewrite Heq in Ht; try done;
    destruct Ht as (t' & ? & (?&?&?&?&?&?&?)); by exists t'.
Qed.

Lemma keeps_weaken {A} (R R' : world → world → Prop) (m : M A) :
  (∀ w w', R w w' → R' w w') → keeps R m → keeps R' m.
Proof. intros HR Hm w. specialize (Hm w). destruct (m w); auto. Qed.

Global Instance only_own_task_refl task_id : Reflexive (only_own_task task_id).
Proof. intros w. by repeat split. Qed.

Global Instance only_own_task_trans task_id : Transitive (only_own_task task_id).
Proof.
  intros w1 w2 w3 (Hf1 & Ho1 & Hp1 & Hl1) (Hf2 & Ho2 & Hp2 & Hl2).
  split; [intros p Hp; by rewrite Hf2, Hf1|].
  split; [intros k Hk; by rewrite Ho2, Ho1|].
  split; [by rewrite Hp2|by etrans].
Qed.

Lemma only_logs_own_task task_id w w' :
  only_logs task_id w w' → only_own_task task_id w w'.
Proof.
  intros (Hf & Ho & Ht). split; [intros p _; by rewrite Hf|]. split; [done|].
  unfold log_of. destruct (tasks w !! task_id) as [t|].
  - destruct Ht as (t' & -> & (_&_&_&_&_&_&?)). by split.
  - rewrite Ht. by split.
Qed.

(** A change of the task's own record that keeps or extends its log. *)
Lemma only_own_task_update task_id (f : task → task) w t b :
  tasks w !! task_id = Some t →
  default [] (progress_messages t) `prefix_of` default [] (progress_messages (f t)) →
  only_own_task task_id w
    (World (<[task_id := f t]> (tasks w)) b (requests w) (files w) (logging w)).
Proof.
  intros Ht Hlog. split; [done|]. split.
  { intros k Hk. simpl. by rewrite lookup_insert_ne. }
  unfold log_of. simpl. rewrite lookup_insert_eq, Ht. by split.
Qed.

Lemma keeps_update_task_locked task_id (f : task → task) :
  (∀ t, progress_messages (f t) = progress_messages t) →
  keeps (only_own_task task_id) (with_tasks_lock (update_task task_id f)).
Proof.
  intros Hf w. unfold with_tasks_lock, update_task.
  destruct (tasks_lock w); [reflexivity|]. cbn [tasks set_tasks_lock].
  destruct (tasks w !! task_id) as [t|] eqn:Ht.
  - pose proof (only_own_task_update task_id f w t false Ht) as H.
    rewrite Hf in H. specialize (H (reflexivity _)). by destruct w.
  - assert (only_own_task task_id w w) as H by reflexivity. by destruct w.
Qed.

Lemma keeps_report_error task_id e :
  keeps (only_own_task task_id) (report_error task_id e).
Proof.
  intros w. unfold report_error, bind, modify, with_tasks_lock.
  cbn [tasks_lock add_logging tasks set_tasks_lock].
  destruct (tasks_lock w).
  { assert (only_own_task task_id w w) as H by reflexivity. by destruct w. }
  destruct (tasks w !! task_id) as [t|] eqn:Ht.
  - rewrite log_progress_blocks by done.
    pose proof (only_own_task_update task_id (set_error e) w t true Ht
                  (reflexivity _)) as H.
    by destruct w.
  - assert (only_own_task task_id w w) as H by reflexivity. by destruct w.
Qed.

Section runner_keeps.

Context (urlparse : string → res parse_result).
Context (urljoin : string → string → res string).
Context (fetch : nat → string → res page).
Context (open_w : string → res unit).
Context (task_id : string).

Lemma keeps_own_log_progress message :
  keeps (only_own_task task_id) (log_progress task_id message).
Proof.
  eapply keeps_weaken; [apply only_logs_own_task|apply keeps_log_progress].
Qed.

Lemma keeps_scrape_sites fuel total sites :
  ∀ i data,
    keeps (only_own_task task_id)
      (scrape_sites urlparse urljoin fetch fuel task_id total i sites data).
Proof.
  induction sites as [|site sites IH]; intros i data; cbn [scrape_sites].
  { apply keeps_ret, _. }
  apply keeps_bind; [apply _..|apply keeps_own_log_progress|intros _].
  apply keeps_bind; [apply _..| |intros emails].
  { eapply keeps_weaken; [apply only_logs_own_task|apply keeps_scrape]. }
  apply keeps_bind; [apply _..| |intros _; apply IH].
  destruct (bool_decide (emails = ∅)); apply keeps_own_log_progress.
Qed.

Lemma keeps_write_csv data :
  keeps (only_own_task task_id)
    (write_csv open_w (os_path_join TEMP_DIR (csv_name task_id)) data).
Proof.
  intros w. unfold write_csv. destruct (open_w _); [|reflexivity].
  split; [|by destruct w].
  intros p Hp. destruct w; simpl. by rewrite lookup_insert_ne.
Qed.

Lemma keeps_run fuel sites :
  keeps (only_own_task task_id)
    (run_scraping_task_thread urlparse urljoin fetch open_w fuel task_id sites).
Proof.
  unfold run_scraping_task_thread.
  apply keeps_try_except; [apply _..| |intros e; apply keeps_report_error].
  unfold scraping_task.
  apply keeps_bind; [apply _..|by apply keeps_update_task_locked|intros _].
  apply keeps_bind; [apply _..|apply keeps_scrape_sites|intros data].
  apply keeps_bind; [apply _..|apply keeps_write_csv|intros _].
  apply keeps_bind; [apply _..|apply keeps_own_log_progress|intros _].
  by apply keeps_update_task_locked.
Qed.

End runner_keeps.

(** X2: however a run of the Task Runner for a task ends, the records of
    all other tasks and all files but its own artifact are as they were,
    the task is still registered if and only if it was, and its log has
    only got new lines at the end. *)
Theorem run_changes_own_task_only
    (urlparse : string → res parse_result)
    (urljoin : string → string → res string)
    (fetch : nat → string → res page)
    (open_w : string → res unit)
    (fuel : nat) (task_id : string) (sites : list string) (w : world) :
  match run_scraping_task_thread urlparse urljoin fetch open_w fuel task_id
          sites w with
  | Return _ w' | Raise _ w' | Blocked w' =>
      (∀ other, other ≠ task_id → tasks w' !! other = tasks w !! other)
      ∧ (∀ path, path ≠ os_path_join TEMP_DIR (csv_name task_id) →
           files w' !! path = files w !! path)
      ∧ (is_Some (tasks w' !! task_id) ↔ is_Some (tasks w !! task_id))
      ∧ log_of task_id w `prefix_of` log_of task_id w'
  | OutOfFuel => True
  end.
Proof.
  pose proof (keeps_run urlparse urljoin fetch open_w task_id fuel sites w) as H.
  destruct (run_scraping_task_thread _ _ _ _ _ _ _ w); [..|done];
    by destruct H as (?&?&?&?).
Qed.

(** ** What the Email Extractor and the crawl return *)

Lemma lower_char_idemp c : PyStr.lower_char (PyStr.lower_char c) = PyStr.lower_char c.
Proof. destruct c as [[] [] [] [] [] [] [] []]; reflexivity. Qed.

Lemma lower_idemp s : PyStr.lower (PyStr.lower s) = PyStr.lower s.
Proof.
  induction s as [|c s IH]; [done|]. simpl. by rewrite lower_char_idemp, IH.
Qed.

Lemma email_kept_length e : email_kept e = true → (String.length e ≤ 255)%nat.
Proof.
  unfold email_kept.
  destruct (existsb _ common_image_extensions); [done|].
  destruct (existsb _ false_positive_patterns); [done|].
  destruct (Nat.ltb_spec 255 (String.length e)); [done|lia].
Qed.

(** X3: every address the Email Extractor returns is the lowercase form of
    a match of the pattern in the text, is unchanged by lowercasing, has at
    most 255 characters and has a local part, one [@], a domain and a last
    label of two letters or more. *)
Theorem find_emails_lowercase_bounded (url content e : string) :
  e ∈ find_emails_on_page url content →
  (∃ m, m ∈ Re.findall email_regex content ∧ e = PyStr.lower m)
  ∧ PyStr.lower e = e
  ∧ (String.length e ≤ 255)%nat
  ∧ ∃ l d t,
      e = l +:+ "@" +:+ d +:+ "." +:+ t
      ∧ l ≠ "" ∧ avoids "@" l ∧ avoids "@" d ∧ avoids "@" t ∧ avoids "." t
      ∧ (2 ≤ String.length t)%nat.
Proof.
  intros (m & Hm%elem_of_list_to_set & He)%elem_of_set_omap. cbv zeta in He.
  destruct (email_kept (PyStr.lower m)) eqn:Hk; [|done].
  injection He as <-. split; [by exists m|]. split; [apply lower_idemp|].
  split; [by apply email_kept_length|].
  apply findall_email_shape, lower_email_shape in Hm
    as (l & d & t & -> & Hl & (?&_) & (?&_) & (?&_&_&?) & ?).
  by exists l, d, t.
Qed.

(** An instance of X3. *)
Lemma find_emails_lowercase_bounded_witness :
  "foo@bar.com" ∈ find_emails_on_page "" "reach Foo@Bar.com or notanemail@@x"
  ∧ PyStr.lower "foo@bar.com" = "foo@bar.com"
  ∧ (String.length "foo@bar.com" ≤ 255)%nat.
Proof.
  assert ("foo@bar.com"
          ∈ find_emails_on_page "" "reach Foo@Bar.com or notanemail@@x") as H.
  { by vm_compute. }
  split; [exact H|].
  destruct (find_emails_lowercase_bounded "" _ _ H) as (_ & H1 & H2 & _).
  split; [exact H1|exact H2].
Defined.

Section crawl_yields.

Context (urlparse : string → res parse_result).
Context (urljoin : string → string → res string).
Context (fetch : nat → string → res page).
Context (task_id : string).

Ltac yields_step :=
  cbv zeta;
  lazymatch goal with
  | |- yields _ (bind _ _) =>
      eapply (yields_bind (λ _, True)); [apply yields_any|intros ? _]
  | |- yields _ (ret _) => apply yields_ret
  | |- yields _ (if ?b then _ else _) => destruct b
  | |- yields _ (match ?x with _ => _ end) => destruct x
  end.

Lemma yields_scrape_page base_domain max_depth_setting current_url depth
    visited emails queue :
  (∀ e, e ∈ emails → extracted e) →
  yields all_extracted
    (scrape_page urlparse urljoin fetch task_id base_domain max_depth_setting
       current_url depth visited emails queue).
Proof.
  intros Hemails.
  assert (∀ page_text q,
    all_extracted
      (CrawlState visited
         (if bool_decide (find_emails_on_page current_url page_text = ∅)
          then emails
          else emails ∪ find_emails_on_page current_url page_text) q)) as Hnew.
  { intros page_text q e. unfold all_extracted. simpl.
    destruct (bool_decide _); [apply Hemails|].
    intros [?|?]%elem_of_union; [by apply Hemails|].
    by exists current_url, page_text. }
  unfold scrape_page. repeat first [apply Hnew|done|yields_step].
Qed.

Lemma yields_crawl_iteration base_domain max_depth_setting st :
  all_extracted st →
  yields all_extracted
    (crawl_iteration urlparse urljoin fetch task_id base_domain
       max_depth_setting st).
Proof.
  intros Hst. unfold crawl_iteration.
  repeat first [by apply yields_scrape_page|done|yields_step].
Qed.

Lemma yields_crawl_loop base_domain max_depth_setting fuel :
  ∀ st,
    all_extracted st →
    yields (λ emails : gset string, ∀ e, e ∈ emails → extracted e)
      (crawl_loop urlparse urljoin fetch fuel task_id base_domain
         max_depth_setting st).
Proof.
  induction fuel as [|fuel IH]; intros st Hst; cbn [crawl_loop];
    destruct (urls_to_visit st).
  - by apply yields_ret.
  - apply yields_out_of_fuel.
  - by apply yields_ret.
  - eapply yields_bind; [by apply yields_crawl_iteration|]. intros st'. apply IH.
Qed.

Lemma yields_scrape fuel base_url max_depth_setting delay :
  yields (λ emails : gset string, ∀ e, e ∈ emails → extracted e)
    (scrape_website_emails_for_task urlparse urljoin fetch fuel base_url
       task_id max_depth_setting delay).
Proof.
  unfold scrape_website_emails_for_task.
  repeat first [apply yields_crawl_loop|yields_step];
    by intros e ?%elem_of_empty.
Qed.

End crawl_yields.

Lemma extracted_lowercase_bounded url content e :
  e ∈ find_emails_on_page url content →
  PyStr.lower e = e ∧ (String.length e ≤ 255)%nat.
Proof.
  intros (m & _ & He)%elem_of_set_omap. cbv zeta in He.
  destruct (email_kept (PyStr.lower m)) eqn:Hk; [|done].
  injection He as <-. split; [apply lower_idemp|by apply email_kept_length].
Qed.

(** X4: the addresses a call of the Crawl Engine returns are all outputs
    of the Email Extractor, hence lowercase and of at most 255 characters. *)
Theorem crawl_returns_extracted_emails
    (urlparse : string → res parse_result)
    (urljoin : string → string → res string)
    (fetch : nat → string → res page)
    (fuel : nat) (base_url task_id : string) (max_depth_setting delay : Z)
    (w : world) :
  match scrape_website_emails_for_task urlparse urljoin fetch fuel base_url
          task_id max_depth_setting delay w with
  | Return emails _ =>
      ∀ e, e ∈ emails →
        (∃ url content, e ∈ find_emails_on_page url content)
        ∧ PyStr.lower e = e ∧ (String.length e ≤ 255)%nat
  | _ => True
  end.
Proof.
  destruct (scrape_website_emails_for_task _ _ _ _ _ _ _ _ w)
    as [emails w'| | |] eqn:Hrun; [|done..].
  intros e He.
  destruct (yields_scrape urlparse urljoin fetch task_id fuel base_url
              max_depth_setting delay w emails w' Hrun e He)
    as (url & content & Hin).
  split; [by exists url, content|]. by eapply extracted_lowercase_bounded.
Qed.

(** ** Texts in several parts *)

Section matcher_parts.

(** [x] is a character that no address contains. *)
Context (x : ascii) (Hlocal : local_char x = false) (Hat : x ≠ "@"%char).

Local Abbreviation stops_at_x := (stops_at_x x).

Lemma stops_m_eps : stops_at_x Re.m_eps.
Proof. by intros a b. Qed.

Lemma stops_m_set cls k :
  cls x = false → stops_at_x k → stops_at_x (Re.m_set cls k).
Proof.
  intros Hx Hk [|c a] b; simpl; [by rewrite Hx|].
  destruct (cls c); [|done]. rewrite Hk. by destruct (k a) as [[]|].
Qed.

Lemma stops_m_star cls k :
  cls x = false → stops_at_x k → stops_at_x (Re.m_star cls k).
Proof.
  intros Hx Hk a b. induction a as [|c a IH].
  - rewrite app_empty_l. cbn [Re.m_star]. rewrite Hx. apply (Hk "" b).
  - rewrite app_cons. cbn [Re.m_star]. destruct (cls c); [|apply (Hk (String c a) b)].
    rewrite IH. destruct (Re.m_star cls k a) as [[m r]|]; [done|].
    simpl. apply (Hk (String c a) b).
Qed.

Lemma stops_email_regex : stops_at_x email_regex.
Proof.
  assert (domain_char x = false ∧ PyStr.is_alpha x = false
          ∧ Ascii.eqb "." x = false ∧ Ascii.eqb "@" x = false)
    as (Hd & Ha & Hdot & Hat').
  { clear -Hlocal Hat. by destruct x as [[] [] [] [] [] [] [] []]. }
  unfold email_regex, Re.m_plus.
  repeat first [apply stops_m_set|apply stops_m_star|apply stops_m_eps]; done.
Qed.

End matcher_parts.

Lemma splits_m_eps : splits_input Re.m_eps.
Proof. by intros s m r [= <- <-]. Qed.

Lemma splits_m_set cls k : splits_input k → splits_input (Re.m_set cls k).
Proof.
  intros Hk s m r (c & s' & m' & -> & _ & -> & Hm)%m_set_inv.
  rewrite app_cons. f_equal. by apply Hk.
Qed.

Lemma splits_m_star cls k : splits_input k → splits_input (Re.m_star cls k).
Proof.
  intros Hk s. induction s as [|c s IH]; intros m r; cbn [Re.m_star].
  - apply Hk.
  - destruct (cls c); [|apply Hk].
    destruct (Re.m_star cls k s) as [[m' r']|] eqn:Hs; simpl; [|apply Hk].
    intros [= <- <-]. rewrite app_cons. f_equal. by apply IH.
Qed.

Lemma splits_email_regex : splits_input email_regex.
Proof.
  unfold email_regex, Re.m_plus.
  repeat first [apply splits_m_set|apply splits_m_star|apply splits_m_eps].
Qed.

Lemma findall_go_parts x (k : Re.matcher) a b :
  stops_at_x x k → splits_input k → k "" = None →
  ∀ skip, (skip ≤ String.length a)%nat →
    Re.findall_go k skip (a +:+ String x b)
    = Re.findall_go k skip a ++ Re.findall_go k 0 b.
Proof.
  intros Hstop Hsplit Hempty. induction a as [|c a IH]; intros skip Hskip.
  - assert (skip = O) as -> by (simpl in Hskip; lia).
    pose proof (Hstop "" b) as H0. rewrite app_empty_l, Hempty in H0.
    rewrite app_empty_l. cbn [Re.findall_go]. by rewrite H0.
  - pose proof (Hstop (String c a) b) as Hc. rewrite app_cons in Hc.
    rewrite app_cons. cbn [Re.findall_go].
    destruct skip as [|skip]; [|apply IH; simpl in Hskip; lia].
    rewrite Hc.
    destruct (k (String c a)) as [[m r]|] eqn:Hm; [|apply IH; lia].
    rewrite <- app_comm_cons. f_equal. apply IH.
    apply Hsplit in Hm. apply (f_equal String.length) in Hm.
    rewrite str_length_app in Hm. simpl in Hm. lia.
Qed.

(** X5: a character [x] that is neither [@] nor in the class of the local
    part (a space, a line feed, a comma, a slash, an angle bracket...) cuts
    the text in two parts that are searched on their own: the addresses of
    the text are those of the part before [x] and those of the part after. *)
Theorem find_emails_of_parts (url a b : string) (x : ascii) :
  local_char x = false → x ≠ "@"%char →
  find_emails_on_page url (a +:+ String x b)
  = find_emails_on_page url a ∪ find_emails_on_page url b.
Proof.
  intros Hlocal Hat. unfold find_emails_on_page, Re.findall.
  rewrite (findall_go_parts x email_regex a b); [|by apply stops_email_regex
    |apply splits_email_regex|done|lia].
  apply set_eq. intros e.
  rewrite elem_of_union, !elem_of_set_omap. split.
  - intros (m & [Hm|Hm]%elem_of_list_to_set%elem_of_app & He);
      [left|right]; exists m; by rewrite elem_of_list_to_set.
  - intros [(m & Hm%elem_of_list_to_set & He)|(m & Hm%elem_of_list_to_set & He)];
      exists m; rewrite elem_of_list_to_set, elem_of_app; auto.
Qed.

(** An instance of X5: the text of a page and a [mailto:] address joined
    by a space. *)
Lemma find_emails_of_parts_witness :
  local_char " " = false ∧ " "%char ≠ "@"%char
  ∧ find_emails_on_page "" ("Write to Info@Site.org" +:+ String " " "sales@site.org")
    = find_emails_on_page "" "Write to Info@Site.org"
      ∪ find_emails_on_page "" "sales@site.org".
Proof.
  split; [reflexivity|]. split; [discriminate|].
  apply (find_emails_of_parts "" "Write to Info@Site.org" "sales@site.org" " ");
    [reflexivity|discriminate].
Defined.

(** ** Letter case *)







(** ** Well-formed [mailto:] links *)

Lemma split_absent sep s :
  PyStr.contains sep s = false → PyStr.split sep s = [s].
Proof.
  unfold PyStr.split. induction s as [|c s IH]; [done|].
  cbn [PyStr.contains PyStr.split_go].
  intros [Hstart Hrest]%orb_false_elim. rewrite Hstart. by rewrite IH.
Qed.

Lemma index_head {A} (x : A) (l : list A) : PyStr.index (x :: l) 0 = Ok x.
Proof.
  unfold PyStr.index. cbn [length Z.ltb Z.compare].
  destruct (Z.leb_spec (Z.of_nat (S (length l))) 0) as [?|_]; [lia|done].
Qed.

Lemma email_in_mailto_address addr query :
  PyStr.contains "mailto:" (addr +:+ query) = false →
  avoids "?" addr →
  query = "" ∨ PyStr.startswith "?" query = true →
  email_in_mailto ("mailto:" +:+ addr +:+ query) = Ok addr.
Proof.
  intros Hno Haddr Hquery. unfold email_in_mailto.
  assert (PyStr.split "mailto:" ("mailto:" +:+ addr +:+ query)
          = "" :: PyStr.split "mailto:" (addr +:+ query)) as -> by reflexivity.
  rewrite (split_absent _ _ Hno).
  assert (PyStr.index [""; addr +:+ query] 1 = Ok (addr +:+ query)) as ->
    by reflexivity.
  destruct Hquery as [->|Hq].
  - rewrite app_empty_r, split_char_absent by done. apply index_head.
  - destruct query as [|c query]; [done|]. rewrite startswith_char in Hq.
    apply Ascii.eqb_eq in Hq as <-.
    rewrite split_char_app, split_char_absent by done. apply index_head.
Qed.

(** X7: a [mailto:] link whose address has no question mark, followed by
    nothing or by a query that starts with a question mark (and with no
    second [mailto:] in it), contributes exactly its address: the text is
    extended by a space and the address, and nothing is logged. *)
Theorem mailto_link_contributes_address
    (addr query task_id current_url link_text page_text : string) (w : world) :
  PyStr.contains "mailto:" (addr +:+ query) = false →
  avoids "?" addr →
  query = "" ∨ PyStr.startswith "?" query = true →
  add_mailto_addresses task_id current_url
    [Anchor ("mailto:" +:+ addr +:+ query) link_text] page_text w
  = Return (page_text +:+ " " +:+ addr) w.
Proof.
  intros Hno Haddr Hquery. cbn [add_mailto_addresses href].
  assert (PyStr.startswith "mailto:" ("mailto:" +:+ addr +:+ query) = true)
    as -> by reflexivity.
  by rewrite email_in_mailto_address.
Qed.

(** An instance of X7. *)
Lemma mailto_link_contributes_address_witness :
  PyStr.contains "mailto:" ("sales@site.org" +:+ "?subject=hi") = false
  ∧ avoids "?" "sales@site.org"
  ∧ ("?subject=hi" = "" ∨ PyStr.startswith "?" "?subject=hi" = true)
  ∧ add_mailto_addresses "t1" "http://site.org"
      [Anchor ("mailto:" +:+ "sales@site.org" +:+ "?subject=hi") "Mail"]
      "Welcome" (Sample.world0 "t1" [])
    = Return ("Welcome" +:+ " " +:+ "sales@site.org") (Sample.world0 "t1" []).
Proof.
  split; [reflexivity|]. split; [reflexivity|]. split; [by right|].
  apply mailto_link_contributes_address; [reflexivity|reflexivity|by right].
Defined.

(** ** How many pages a crawl requests *)


Section crawl_bound.

Context (urlparse : string → res parse_result).
Context (urljoin : string → string → res string).
Context (fetch : nat → string → res page).
Context (task_id : string).

Ltac yields_step :=
  cbv zeta;
  lazymatch goal with
  | |- yields _ (bind _ _) =>
      eapply (yields_bind (λ _, True)); [apply yields_any|intros ? _]
  | |- yields _ (ret _) => apply yields_ret
  | |- yields _ (if ?b then _ else _) => destruct b
  | |- yields _ (match ?x with _ => _ end) => destruct x
  end.




End crawl_bound.



(** ** Seeds that are not crawled, tasks that are not registered *)

(** X9: a seed that [urlparse] reads with no scheme, with no authority or
    with the scheme [mailto] or [tel] is not crawled: under every iteration
    bound the call returns the empty set without any request, and it adds
    the line [Skipping invalid base URL: ...] to the log of its task when
    that task is registered with a log. *)
Theorem crawl_skips_invalid_seed
    (urlparse : string → res parse_result)
    (urljoin : string → string → res string)
    (fetch : nat → string → res page)
    (fuel : nat) (base_url task_id : string) (max_depth_setting delay : Z)
    (w : world) (p : parse_result) (t : task) (log : list string) :
  urlparse base_url = Ok p →
  scheme p = "" ∨ netloc p = "" ∨ scheme p = "mailto" ∨ scheme p = "tel" →
  tasks_lock w = false →
  tasks w !! task_id = Some t →
  progress_messages t = Some log →
  ∃ w',
    scrape_website_emails_for_task urlparse urljoin fetch fuel base_url task_id
      max_depth_setting delay w = Return ∅ w'
    ∧ requests w' = requests w
    ∧ files w' = files w
    ∧ tasks_lock w' = false
    ∧ log_of task_id w' = log ++ ["Skipping invalid base URL: " +:+ base_url]
    ∧ ∀ other, other ≠ task_id → tasks w' !! other = tasks w !! other.
Proof.
  intros Hp Hbad Hlock Ht Hlog.
  assert (is_valid_url urlparse base_url = Ok false) as Hinv.
  { unfold is_valid_url. rewrite Hp. f_equal.
    destruct Hbad as [->|[->|[->| ->]]]; simpl;
      rewrite ?andb_false_r; done. }
  unfold scrape_website_emails_for_task, bind. rewrite Hinv. simpl.
  unfold with_tasks_lock. rewrite Hlock. cbn [tasks set_tasks_lock].
  rewrite Ht, Hlog. eexists. split; [reflexivity|].
  destruct w; simpl in *. repeat split.
  - unfold log_of. simpl. rewrite lookup_insert_eq. simpl. by rewrite Hlog.
  - intros other Hother. by rewrite lookup_insert_ne.
Qed.

(** An instance of X9: a seed without [://]. *)
Lemma crawl_skips_invalid_seed_witness :
  Sample.urlparse "ftp//x" = Ok (ParseResult "" "")
  ∧ tasks_lock (Sample.world0 "t1" []) = false
  ∧ ∃ w',
      scrape_website_emails_for_task Sample.urlparse Sample.urljoin Sample.fetch
        0 "ftp//x" "t1" MAX_DEPTH POLITE_DELAY (Sample.world0 "t1" [])
      = Return ∅ w'
      ∧ requests w' = []
      ∧ log_of "t1" w' = ["Task initiated."; "Skipping invalid base URL: ftp//x"].
Proof.
  split; [reflexivity|]. split; [reflexivity|].
  destruct (crawl_skips_invalid_seed Sample.urlparse Sample.urljoin Sample.fetch
              0 "ftp//x" "t1" MAX_DEPTH POLITE_DELAY (Sample.world0 "t1" [])
              (ParseResult "" "") (new_task []) ["Task initiated."]
              eq_refl (or_introl eq_refl) eq_refl eq_refl eq_refl)
    as (w' & Hrun & Hreq & _ & _ & Hlog & _).
  exists w'. split; [exact Hrun|]. split; [exact Hreq|exact Hlog].
Defined.



(** ** How a run ends *)

Section run_ends.

Context (urlparse : string → res parse_result).
Context (urljoin : string → string → res string).
Context (fetch : nat → string → res page).
Context (open_w : string → res unit).
Context (task_id : string).

Lemma scrape_ends base_url w :
  tasks_lock w = false →
  ∃ n, ended_unlocked
         (scrape_website_emails_for_task urlparse urljoin fetch n base_url
            task_id MAX_DEPTH POLITE_DELAY w).
Proof.
  intros Hlock. destruct (is_valid_url urlparse base_url) as [[]|e] eqn:Hvalid.
  - destruct (is_valid_url_parsed _ _ _ Hvalid) as [p0 Hp0].
    destruct (scrape_valid_seed urlparse urljoin fetch task_id MAX_DEPTH
                POLITE_DELAY base_url p0 w Hlock Hp0 Hvalid)
      as (w0 & st1 & w1 & _ & _ & _ & Hrun).
    exists (S (length (urls_to_visit st1))).
    destruct (Hrun _ (le_n _)) as (emails & w' & -> & Hext).
    by eapply extends_lock.
  - exists O.
    destruct (scrape_invalid_seed urlparse urljoin fetch task_id MAX_DEPTH
                POLITE_DELAY O base_url w Hlock Hvalid) as (w' & -> & Hext).
    by eapply extends_lock.
  - exists O. by rewrite (scrape_raises _ _ _ _ _ _ _ _ e).
Qed.

Lemma scrape_sites_ends total sites :
  ∀ i data w,
    tasks_lock w = false →
    ∃ n, ended_unlocked
           (scrape_sites urlparse urljoin fetch n task_id total i sites data w).
Proof.
  induction sites as [|site sites IH]; intros i data w Hlock; [by exists O|].
  cbn [scrape_sites].
  destruct (log_progress_returns task_id
              ("--- Processing website " +:+ pretty (i + 1)%nat +:+ "/"
               +:+ pretty total +:+ ": " +:+ site +:+ " ---") w Hlock)
    as (w1 & Hlog1 & Hw1).
  assert (tasks_lock w1 = false) as Hlock1 by (by eapply extends_lock).
  destruct (scrape_ends site w1 Hlock1) as (n1 & Hn1).
  destruct (scrape_website_emails_for_task urlparse urljoin fetch n1 site
              task_id MAX_DEPTH POLITE_DELAY w1)
    as [emails w2|e w2|w2|] eqn:Hscrape; [| |done..].
  2:{ exists n1. unfold bind. by rewrite Hlog1, Hscrape. }
  simpl in Hn1.
  set (message :=
         if bool_decide (emails = ∅)
         then "  No emails found for " +:+ site +:+ " (or an error occurred)."
         else "  Successfully scraped " +:+ pretty (size emails)
              +:+ " email(s) from " +:+ site +:+ ": " +:+ emails_cell emails).
  destruct (log_progress_returns task_id message w2 Hn1) as (w3 & Hlog3 & Hw3).
  assert (tasks_lock w3 = false) as Hlock3 by (by eapply extends_lock).
  destruct (IH (S i) (data ++ [(site, emails_cell emails)]) w3 Hlock3)
    as (n2 & Hn2).
  exists (Nat.max n1 n2). unfold bind. rewrite Hlog1.
  rewrite (scrape_fuel_mono urlparse urljoin fetch n1), Hscrape
    by (lia || by rewrite Hscrape).
  assert ((if bool_decide (emails = ∅)
           then log_progress task_id
                  ("  No emails found for " +:+ site
                   +:+ " (or an error occurred).")
           else log_progress task_id
                  ("  Successfully scraped " +:+ pretty (size emails)
                   +:+ " email(s) from " +:+ site +:+ ": "
                   +:+ emails_cell emails)) w2 = Return tt w3) as ->.
  { unfold message in Hlog3. by destruct (bool_decide (emails = ∅)). }
  rewrite (scrape_sites_fuel_mono urlparse urljoin fetch n2); [done|lia|].
  intros Hfuel. by rewrite Hfuel in Hn2.
Qed.

Lemma keeps_logs_scrape_sites fuel total sites :
  ∀ i data,
    keeps (only_logs task_id)
      (scrape_sites urlparse urljoin fetch fuel task_id total i sites data).
Proof.
  induction sites as [|site sites IH]; intros i data; cbn [scrape_sites].
  { apply keeps_ret, _. }
  apply keeps_bind; [apply _..|apply keeps_log_progress|intros _].
  apply keeps_bind; [apply _..|apply keeps_scrape|intros emails].
  apply keeps_bind; [apply _..| |intros _; apply IH].
  destruct (bool_decide (emails = ∅)); apply keeps_log_progress.
Qed.

(** How the statements under [try] end for a registered task, with the
    lock free: they return with the task complete and the artifact written,
    or they raise before anything but the log and the status has changed. *)
Lemma scraping_task_ends sites w t :
  tasks_lock w = false →
  tasks w !! task_id = Some t →
  ∃ n,
    (∃ w' t',
       scraping_task urlparse urljoin fetch open_w n task_id sites w
       = Return tt w'
       ∧ tasks_lock w' = false
       ∧ tasks w' !! task_id = Some t'
       ∧ status t' = complete
       ∧ filename t' = Some (csv_name task_id)
       ∧ is_Some (files w' !! os_path_join TEMP_DIR (csv_name task_id)))
    ∨ (∃ e w' t',
         scraping_task urlparse urljoin fetch open_w n task_id sites w
         = Raise e w'
         ∧ tasks_lock w' = false
         ∧ tasks w' !! task_id = Some t'
         ∧ filename t' = filename t
         ∧ files w' = files w).
Proof.
  intros Hlock Ht.
  set (w1 := World (<[task_id := set_processing t]> (tasks w)) false
               (requests w) (files w) (logging w)).
  assert (with_tasks_lock (update_task task_id set_processing) w = Return tt w1)
    as Hupd.
  { unfold with_tasks_lock, update_task. rewrite Hlock.
    cbn [tasks set_tasks_lock]. rewrite Ht. by destruct w. }
  destruct (scrape_sites_ends (length sites) sites O [] w1 eq_refl) as (n & Hn).
  pose proof (keeps_logs_scrape_sites n (length sites) sites O [] w1) as Hkeep.
  exists n.
  destruct (scrape_sites urlparse urljoin fetch n task_id (length sites) 0
              sites [] w1) as [data w2|e w2|w2|] eqn:Hsites; [| |done..];
    simpl in Hn; destruct Hkeep as (Hfiles & _ & Htask);
    unfold w1 in Htask; cbn [tasks] in Htask;
    rewrite lookup_insert_eq in Htask;
    destruct Htask as (t2 & Ht2 & (_ & _ & Hfn & _)).
  2:{ right. exists e, w2, t2. split; [|by repeat split].
      unfold scraping_task, bind. by rewrite Hupd, Hsites. }
  destruct (open_w (os_path_join TEMP_DIR (csv_name task_id))) as [[]|e]
    eqn:Hopen.
  2:{ right. exists e, w2, t2. split; [|by repeat split].
      unfold scraping_task, bind, write_csv. by rewrite Hupd, Hsites, Hopen. }
  left.
  set (w3 := set_file (os_path_join TEMP_DIR (csv_name task_id))
               (csv_rows data) w2).
  assert (tasks_lock w3 = false) as Hlock3 by (by destruct w2).
  destruct (log_progress_returns task_id
              ("Scraping complete. Results saved to server: "
               +:+ csv_name task_id) w3 Hlock3)
    as (w4 & Hlog4 & (Hlock4 & _ & Hfiles4 & Hdom4)).
  assert (is_Some (tasks w4 !! task_id)) as [t4 Ht4].
  { apply elem_of_dom. rewrite Hdom4. apply elem_of_dom.
    exists t2. by destruct w2. }
  exists (World
            (<[task_id := set_complete (csv_name task_id)
                            (pretty (length data) +:+ " websites processed.") t4]>
               (tasks w4)) false (requests w4) (files w4) (logging w4)).
  exists (set_complete (csv_name task_id)
            (pretty (length data) +:+ " websites processed.") t4).
  split.
  { unfold scraping_task, bind, write_csv. rewrite Hupd, Hsites, Hopen.
    fold w3. rewrite Hlog4. unfold with_tasks_lock, update_task.
    rewrite Hlock4, Hlock3. cbn [tasks set_tasks_lock]. rewrite Ht4.
    by destruct w4. }
  split; [done|]. split; [cbn [tasks]; apply lookup_insert_eq|].
  split; [done|]. split; [done|].
  cbn [files]. rewrite Hfiles4.
  unfold w3. destruct w2. cbn [files set_file]. rewrite lookup_insert_eq. eauto.
Qed.

End run_ends.

(** X11: with the lock free and for every batch, a run of the Task Runner
    for a registered task ends, from some iteration bound on, in one of two
    ways: it returns with the lock free, the task complete, the name of the
    artifact in the record and the artifact written; or, an exception having
    escaped the batch, it stays blocked with the lock held, the task in
    error with the text of the exception, and the file name and the files
    as they were. *)
Theorem run_ends_complete_or_blocked
    (urlparse : string → res parse_result)
    (urljoin : string → string → res string)
    (fetch : nat → string → res page)
    (open_w : string → res unit)
    (task_id : string) (sites : list string) (w : world) (t : task) :
  tasks_lock w = false →
  tasks w !! task_id = Some t →
  ∃ n, ∀ fuel, (n ≤ fuel)%nat →
    (∃ w' t',
       run_scraping_task_thread urlparse urljoin fetch open_w fuel task_id
         sites w = Return tt w'
       ∧ tasks_lock w' = false
       ∧ tasks w' !! task_id = Some t'
       ∧ status t' = complete
       ∧ filename t' = Some (csv_name task_id)
       ∧ is_Some (files w' !! os_path_join TEMP_DIR (csv_name task_id)))
    ∨ (∃ w' t' e,
         run_scraping_task_thread urlparse urljoin fetch open_w fuel task_id
           sites w = Blocked w'
         ∧ tasks_lock w' = true
         ∧ tasks w' !! task_id = Some t'
         ∧ status t' = error
         ∧ error_message t' = Some e
         ∧ filename t' = filename t
         ∧ files w' = files w).
Proof.
  intros Hlock Ht.
  destruct (scraping_task_ends urlparse urljoin fetch open_w task_id sites w t
              Hlock Ht) as (n & Hn).
  exists n. intros fuel Hfuel.
  unfold run_scraping_task_thread, try_except.
  rewrite (scraping_task_fuel_mono urlparse urljoin fetch open_w n fuel)
    by (try done; destruct Hn as [(?&?&->&_)|(?&?&?&->&_)]; done).
  destruct Hn as [(w' & t' & -> & H)|(e & w1 & t1 & -> & Hl1 & Ht1 & Hfn & Hfs)].
  - left. by exists w', t'.
  - right. rewrite (report_error_blocks task_id e w1 t1 Hl1 Ht1).
    eexists _, _, e. split; [reflexivity|]. split; [done|].
    split; [cbn [tasks]; apply lookup_insert_eq|]. by repeat split.
Qed.

(** An instance of X11: the batch of the sample site. *)
Lemma run_ends_complete_or_blocked_witness :
  tasks_lock (Sample.world0 "t1" ["http://site.org"]) = false
  ∧ tasks (Sample.world0 "t1" ["http://site.org"]) !! "t1"
    = Some (new_task ["http://site.org"])
  ∧ ∃ n, ∀ fuel, (n ≤ fuel)%nat →
      (∃ w' t',
         run_scraping_task_thread Sample.urlparse Sample.urljoin Sample.fetch
           Sample.open_w fuel "t1" ["http://site.org"]
           (Sample.world0 "t1" ["http://site.org"]) = Return tt w'
         ∧ tasks w' !! "t1" = Some t' ∧ status t' = complete)
      ∨ (∃ w' t',
           run_scraping_task_thread Sample.urlparse Sample.urljoin Sample.fetch
             Sample.open_w fuel "t1" ["http://site.org"]
             (Sample.world0 "t1" ["http://site.org"]) = Blocked w'
           ∧ tasks w' !! "t1" = Some t' ∧ status t' = error).
Proof.
  split; [reflexivity|]. split; [reflexivity|].
  destruct (run_ends_complete_or_blocked Sample.urlparse Sample.urljoin
              Sample.fetch Sample.open_w "t1" ["http://site.org"]
              (Sample.world0 "t1" ["http://site.org"])
              (new_task ["http://site.org"]) eq_refl eq_refl) as (n & Hn).
  exists n. intros fuel Hfuel.
  destruct (Hn fuel Hfuel)
    as [(w' & t' & H1 & _ & H2 & H3 & _)|(w' & t' & e & H1 & _ & H2 & H3 & _)].
  - left. exists w', t'. split; [exact H1|]. split; [exact H2|exact H3].
  - right. exists w', t'. split; [exact H1|]. split; [exact H2|exact H3].
Defined.

(** ** Observers *)

Lemma generate_from_prefix task_id polls :
  ∀ last_sent_idx more,
    (generate_from task_id last_sent_idx polls).1
    `prefix_of` (generate_from task_id last_sent_idx (polls ++ more)).1.
Proof.
  induction polls as [|w polls IH]; intros idx more; [apply prefix_nil|].
  cbn [app generate_from].
  destruct (poll task_id idx w) as [|events [idx'|]]; [done| |done].
  cbn [fst]. apply prefix_app, IH.
Qed.

Lemma generate_from_over task_id polls :
  ∀ last_sent_idx more,
    (∀ idx, (generate_from task_id last_sent_idx polls).2 ≠ Waiting idx) →
    generate_from task_id last_sent_idx (polls ++ more)
    = generate_from task_id last_sent_idx polls.
Proof.
  induction polls as [|w polls IH]; intros idx more Hover.
  { by destruct (Hover idx). }
  cbn [app generate_from] in *.
  destruct (poll task_id idx w) as [|events [idx'|]]; [done| |done].
  cbn [snd] in Hover. by rewrite IH.
Qed.

(** X12: the events an observer has received are never taken back: more
    polls only add events at the end; and once the stream has ended, by a
    terminal event or blocked on the lock, further polls add nothing. *)
Theorem progress_stream_terminal_is_last
    (task_id : string) (polls more : list world) :
  (progress_stream task_id polls).1
  `prefix_of` (progress_stream task_id (polls ++ more)).1
  ∧ ((progress_stream task_id polls).2 = Ended
     ∨ (progress_stream task_id polls).2 = Stuck →
     progress_stream task_id (polls ++ more) = progress_stream task_id polls).
Proof.
  split; [apply generate_from_prefix|].
  intros Hend. apply generate_from_over. intros idx Hidx.
  unfold progress_stream in Hend. rewrite Hidx in Hend. by destruct Hend.
Qed.

(** An instance of X12: a poll after the task is complete. *)
Lemma progress_stream_terminal_is_last_witness :
  let t :=
    Task complete [] (Some ["Task initiated."]) (Some "scraped_emails_t1.csv")
      None (-1) (Some "0 websites processed.") in
  let w := World {["t1" := t]} false [] ∅ [] in
  (progress_stream "t1" [w]).2 = Ended
  ∧ progress_stream "t1" ([w] ++ [w]) = progress_stream "t1" [w].
Proof.
  intros t w. split; [reflexivity|].
  exact (proj2 (progress_stream_terminal_is_last "t1" [w] [w])
           (or_introl eq_refl)).
Defined.

Lemma logs_grow_from_nil task_id prev polls :
  logs_grow task_id prev polls → logs_grow task_id [] polls.
Proof. destruct polls; [done|]. intros [_ ?]. split; [apply prefix_nil|done]. Qed.

Lemma logs_grow_app_r task_id polls1 :
  ∀ prev polls2,
    logs_grow task_id prev (polls1 ++ polls2) → logs_grow task_id [] polls2.
Proof.
  induction polls1 as [|w polls1 IH]; intros prev polls2.
  - apply logs_grow_from_nil.
  - intros [_ H]. by eapply IH.
Qed.

(** X13: an observer that connects later misses nothing.  When the log
    only grows and the polls before the last find the task running, the
    observer that polls from the start of the run and the one that starts
    polling after [earlier] have received the same events after the last
    poll, and their streams stand alike. *)
Theorem progress_stream_late_observer
    (task_id : string) (earlier later : list world) (w : world) (t : task) :
  Forall (readable task_id running) (earlier ++ later) →
  tasks_lock w = false →
  tasks w !! task_id = Some t →
  logs_grow task_id [] (earlier ++ later ++ [w]) →
  progress_stream task_id (earlier ++ later ++ [w])
  = progress_stream task_id (later ++ [w]).
Proof.
  intros Hpolls Hlock Ht Hgrow. unfold progress_stream.
  change (-1) with (Z.of_nat (length (@nil string)) - 1).
  rewrite app_assoc.
  rewrite (generate_from_spec task_id (earlier ++ later) [] w t);
    [|done..|by rewrite <- app_assoc].
  rewrite (generate_from_spec task_id later [] w t); try done.
  - by apply Forall_app in Hpolls as [_ ?].
  - by eapply logs_grow_app_r.
Qed.

(** An instance of X13: the second observer connects when the task is
    complete. *)
Lemma progress_stream_late_observer_witness :
  let ta := Task processing [] (Some ["Task initiated."]) None None (-1) None in
  let tb :=
    Task complete [] (Some ["Task initiated."; "Scraping complete."])
      (Some "scraped_emails_t1.csv") None (-1) (Some "0 websites processed.") in
  let wa := World {["t1" := ta]} false [] ∅ [] in
  let wb := World {["t1" := tb]} false [] ∅ [] in
  Forall (readable "t1" running) ([wa] ++ [])
  ∧ tasks_lock wb = false
  ∧ tasks wb !! "t1" = Some tb
  ∧ logs_grow "t1" [] ([wa] ++ [] ++ [wb])
  ∧ progress_stream "t1" ([wa] ++ [] ++ [wb]) = progress_stream "t1" ([] ++ [wb]).
Proof.
  intros ta tb wa wb.
  assert (Forall (readable "t1" running) ([wa] ++ [])) as H1.
  { apply Forall_cons. split; [|apply Forall_nil_2].
    split; [reflexivity|]. exists ta. split; [reflexivity|]. right. reflexivity. }
  assert (logs_grow "t1" [] ([wa] ++ [] ++ [wb])) as H2.
  { split; [apply prefix_nil|]. split; [|done]. by exists ["Scraping complete."]. }
  split; [exact H1|]. split; [reflexivity|]. split; [reflexivity|].
  split; [exact H2|].
  exact (progress_stream_late_observer "t1" [wa] [] wb tb H1 eq_refl eq_refl H2).
Defined.

(** ** The artifact, from the runner to the download *)

Lemma contains_dots_suffix s :
  avoids "." s → PyStr.contains ".." (s +:+ ".csv") = false.
Proof.
  induction s as [|c s IH]; [done|].
  intros [Hc Hs]%avoids_cons. rewrite app_cons. cbn [PyStr.contains].
  rewrite (IH Hs), orb_false_r. cbn [PyStr.startswith]. by rewrite Hc.
Qed.

Lemma csv_name_safe task_id :
  avoids "." task_id →
  PyStr.contains ".." (csv_name task_id) = false
  ∧ PyStr.startswith "/" (csv_name task_id) = false.
Proof.
  intros Hid. split; [|done]. unfold csv_name.
  pose proof (contains_dots_suffix task_id Hid) as H.
  change ("scraped_emails_" +:+ task_id +:+ ".csv")
    with (String "s" (String "c" (String "r" (String "a" (String "p"
         (String "e" (String "d" (String "_" (String "e" (String "m"
         (String "a" (String "i" (String "l" (String "s" (String "_"
         (task_id +:+ ".csv")))))))))))))))).
  cbn [PyStr.contains PyStr.startswith Ascii.eqb Bool.eqb].
  rewrite H. reflexivity.
Qed.

Lemma temp_dir_join filename :
  PyStr.startswith "/" filename = false →
  os_path_join TEMP_DIR filename = "temp_files/" +:+ filename.
Proof. intros H. unfold os_path_join. by rewrite H. Qed.

Lemma contains_dots_temp_dir filename :
  PyStr.contains ".." filename = false →
  PyStr.startswith "/" filename = false →
  PyStr.contains ".." ("temp_files/" +:+ filename) = false.
Proof.
  intros H1 H2.
  change ("temp_files/" +:+ filename)
    with (String "t" (String "e" (String "m" (String "p" (String "_"
         (String "f" (String "i" (String "l" (String "e" (String "s"
         (String "/" filename))))))))))).
  cbn [PyStr.contains PyStr.startswith Ascii.eqb Bool.eqb].
  rewrite H1. reflexivity.
Qed.

(** X14: whatever name is asked for, the download route only ever consults
    the file system about the one path [temp_files/<name>], and only for a
    name without two consecutive dots: no path with a parent-directory
    step, and none outside the artifact directory, is tested or sent. *)
Theorem download_stays_in_temp_dir
    (isfile : string → bool) (filename : string) (access : fs_access) :
  access ∈ (download_file isfile filename).2 →
  ∃ path,
    (access = IsFile path ∨ access = SendFile path)
    ∧ path = "temp_files/" +:+ filename
    ∧ PyStr.contains ".." path = false.
Proof.
  unfold download_file.
  destruct (PyStr.contains ".." filename) eqn:Hdots; cbn [orb snd];
    [by intros ?%elem_of_nil|].
  destruct (PyStr.startswith "/" filename) eqn:Hslash; cbn [snd];
    [by intros ?%elem_of_nil|].
  rewrite (temp_dir_join filename Hslash).
  pose proof (contains_dots_temp_dir filename Hdots Hslash) as Hsafe.
  destruct (isfile _); cbn [negb snd].
  - intros [->|[->|?%elem_of_nil]%elem_of_cons]%elem_of_cons; [..|done];
      eexists; eauto.
  - intros [->|?%elem_of_nil]%elem_of_cons; [|done]. eexists; eauto.
Qed.

(** An instance of X14. *)
Lemma download_stays_in_temp_dir_witness :
  IsFile "temp_files/scraped_emails_t1.csv"
  ∈ (download_file (λ _, false) "scraped_emails_t1.csv").2
  ∧ ∃ path,
      (IsFile "temp_files/scraped_emails_t1.csv" = IsFile path
       ∨ IsFile "temp_files/scraped_emails_t1.csv" = SendFile path)
      ∧ path = "temp_files/" +:+ "scraped_emails_t1.csv"
      ∧ PyStr.contains ".." path = false.
Proof.
  assert (IsFile "temp_files/scraped_emails_t1.csv"
          ∈ (download_file (λ _, false) "scraped_emails_t1.csv").2) as H.
  { apply list_elem_of_singleton. reflexivity. }
  split; [exact H|].
  exact (download_stays_in_temp_dir (λ _, false) "scraped_emails_t1.csv" _ H).
Defined.

(** X15: a run that succeeds can be collected.  When the statements under
    [try] return for a task id without a dot (as the ids the submission
    route draws are), an observer that polls next receives the whole log
    and then the event [COMPLETE:<artifact name>], the stream ends, and the
    download route, asked for that name, sends the file the runner wrote. *)
Theorem completed_run_is_downloadable
    (urlparse : string → res parse_result)
    (urljoin : string → string → res string)
    (fetch : nat → string → res page)
    (open_w : string → res unit)
    (fuel : nat) (task_id : string) (sites : list string) (w w' : world) :
  avoids "." task_id →
  scraping_task urlparse urljoin fetch open_w fuel task_id sites w = Return tt w' →
  progress_stream task_id [w']
  = (map sse (log_of task_id w') ++ [sse ("COMPLETE:" +:+ csv_name task_id)],
     Ended)
  ∧ is_Some (files w' !! ("temp_files/" +:+ csv_name task_id))
  ∧ download_file (isfile_in w') (csv_name task_id)
    = (Attachment ("temp_files/" +:+ csv_name task_id) (csv_name task_id),
       [IsFile ("temp_files/" +:+ csv_name task_id);
        SendFile ("temp_files/" +:+ csv_name task_id)]).
Proof.
  intros Hid Hrun. unfold scraping_task in Hrun.
  apply bind_return_inv in Hrun as (? & w1 & _ & Hrun).
  apply bind_return_inv in Hrun as (data & w2 & _ & Hrun).
  apply bind_return_inv in Hrun as (? & w3 & Hcsv & Hrun).
  apply bind_return_inv in Hrun as (? & w4 & [_ Hw4]%log_progress_inv & Hrun).
  apply update_task_locked_inv in Hrun as (t & Ht & ->).
  unfold write_csv in Hcsv. destruct (open_w _); [|done].
  injection Hcsv as Hcsv. subst w3.
  destruct Hw4 as (_ & _ & Hfiles & _).
  destruct (csv_name_safe task_id Hid) as [Hdots Hslash].
  rewrite (temp_dir_join _ Hslash) in Hfiles.
  assert (is_Some (files w4 !! ("temp_files/" +:+ csv_name task_id))) as Hfile.
  { rewrite Hfiles. cbn [files set_file]. rewrite lookup_insert_eq. by eexists. }
  split; [|split; [done|]].
  - unfold progress_stream, log_of. cbn [generate_from]. unfold poll.
    cbn [tasks_lock tasks]. rewrite lookup_insert_eq.
    cbn [status set_complete filename format_opt default progress_messages].
    unfold PyStr.slice_from. cbn [Z.add Z.opp Z.pos_sub Z.ltb Z.compare Z.to_nat drop].
    reflexivity.
  - unfold download_file. rewrite Hdots, Hslash. cbn [orb].
    rewrite (temp_dir_join _ Hslash). unfold isfile_in. cbn [files].
    by rewrite (bool_decide_eq_true_2 _ Hfile).
Qed.

(** An instance of X15: the batch of the sample site. *)
Lemma completed_run_is_downloadable_witness :
  avoids "." "t1"
  ∧ ∃ w',
      scraping_task Sample.urlparse Sample.urljoin Sample.fetch Sample.open_w 3
        "t1" ["http://site.org"] (Sample.world0 "t1" ["http://site.org"])
      = Return tt w'
      ∧ (progress_stream "t1" [w']).2 = Ended
      ∧ download_file (isfile_in w') "scraped_emails_t1.csv"
        = (Attachment "temp_files/scraped_emails_t1.csv" "scraped_emails_t1.csv",
           [IsFile "temp_files/scraped_emails_t1.csv";
            SendFile "temp_files/scraped_emails_t1.csv"]).
Proof.
  assert (avoids "." "t1") as Hid by reflexivity.
  split; [exact Hid|].
  destruct (scraping_task Sample.urlparse Sample.urljoin Sample.fetch
              Sample.open_w 3 "t1" ["http://site.org"]
              (Sample.world0 "t1" ["http://site.org"]))
    as [[] w'| | |] eqn:Hrun; [|by vm_compute in Hrun..].
  exists w'. split; [reflexivity|].
  destruct (completed_run_is_downloadable Sample.urlparse Sample.urljoin
              Sample.fetch Sample.open_w 3 "t1" ["http://site.org"]
              (Sample.world0 "t1" ["http://site.org"]) w' Hid Hrun)
    as (Hstream & _ & Hget).
  split; [by rewrite Hstream|exact Hget].
Defined.

(** ** A site that cannot be fetched *)






(** ** Submission *)

Lemma linebreak_is_space c : PyStr.is_linebreak c = true → PyStr.is_space c = true.
Proof. by destruct c as [[] [] [] [] [] [] [] []]. Qed.

Lemma lstrip_blank s : all_chars PyStr.is_space s = true → PyStr.lstrip s = "".
Proof.
  induction s as [|c s IH]; [done|]. cbn [all_chars PyStr.lstrip].
  intros [-> ?]%andb_true_iff. by apply IH.
Qed.

Lemma strip_blank s : all_chars PyStr.is_space s = true → PyStr.strip s = "".
Proof. intros H. unfold PyStr.strip. by rewrite (lstrip_blank s H). Qed.

Lemma lstrip_nonblank s :
  all_chars PyStr.is_space s = false →
  all_chars PyStr.is_space (PyStr.lstrip s) = false.
Proof.
  induction s as [|c s IH]; [done|]. cbn [all_chars PyStr.lstrip].
  destruct (PyStr.is_space c) eqn:Hc; [done|].
  intros _. cbn [all_chars]. by rewrite Hc.
Qed.

Lemma rstrip_nonblank s :
  all_chars PyStr.is_space s = false →
  all_chars PyStr.is_space (PyStr.rstrip s) = false.
Proof.
  induction s as [|c s IH]; [done|]. cbn [all_chars PyStr.rstrip].
  destruct (PyStr.rstrip s) as [|c' r] eqn:Hr.
  - destruct (PyStr.is_space c) eqn:Hc; cbn [andb all_chars].
    + intros Hs. by apply IH in Hs.
    + intros _. by rewrite Hc.
  - destruct (PyStr.is_space c) eqn:Hc; cbn [andb].
    + intros Hs. cbn [all_chars]. rewrite Hc. by apply IH.
    + intros _. cbn [all_chars]. by rewrite Hc.
Qed.

Lemma strip_nonblank s :
  all_chars PyStr.is_space s = false →
  all_chars PyStr.is_space (PyStr.strip s) = false.
Proof. intros H. by apply rstrip_nonblank, lstrip_nonblank. Qed.

Lemma splitlines_nonblank s :
  ∀ after_cr,
    all_chars PyStr.is_space s = false →
    Exists (λ line, all_chars PyStr.is_space line = false)
      (PyStr.splitlines_go after_cr s).
Proof.
  induction s as [|c s IH]; intros after_cr; [done|].
  cbn [all_chars PyStr.splitlines_go].
  destruct (after_cr && Ascii.eqb c (ascii_of_nat 10)) eqn:Hlf.
  { apply andb_true_iff in Hlf as [_ ->%Ascii.eqb_eq]. apply IH. }
  destruct (PyStr.is_linebreak c) eqn:Hbreak.
  { rewrite (linebreak_is_space c Hbreak). intros Hs. apply Exists_cons_tl.
    by apply IH. }
  destruct (PyStr.is_space c) eqn:Hc; cbn [andb].
  - intros Hs. specialize (IH false Hs).
    destruct (PyStr.splitlines_go false s) as [|line lines];
      [by apply Exists_nil in IH|].
    apply Exists_cons in IH as [Hline|Hlines].
    + apply Exists_cons_hd. cbn [all_chars]. by rewrite Hline, andb_false_r.
    + by apply Exists_cons_tl.
  - intros _.
    destruct (PyStr.splitlines_go false s) as [|line lines];
      apply Exists_cons_hd; cbn [all_chars]; by rewrite Hc.
Qed.

Lemma prepare_urls_nonblank raw_urls :
  Exists (λ line, all_chars PyStr.is_space line = false) raw_urls →
  prepare_urls raw_urls ≠ [].
Proof.
  induction raw_urls as [|u raw_urls IH]; [by intros ?%Exists_nil|].
  intros [Hu|Hrest]%Exists_cons; cbn [prepare_urls].
  - apply strip_nonblank in Hu.
    rewrite bool_decide_eq_false_2; [done|]. by intros Heq; rewrite Heq in Hu.
  - case_bool_decide; [by apply IH|done].
Qed.

Lemma prepare_urls_schemes raw_urls :
  Forall (λ url, url ≠ ""
                 ∧ (PyStr.startswith "http://" url = true
                    ∨ PyStr.startswith "https://" url = true))
    (prepare_urls raw_urls).
Proof.
  induction raw_urls as [|u raw_urls IH]; [constructor|]. cbn [prepare_urls].
  case_bool_decide as Hu; [done|]. constructor; [|done].
  destruct (PyStr.startswith "http://" (PyStr.strip u)) eqn:H1; cbn [orb].
  { split; [done|by left]. }
  destruct (PyStr.startswith "https://" (PyStr.strip u)) eqn:H2.
  { split; [done|by right]. }
  split; [done|]. left. reflexivity.
Qed.

(** X17: a submission without a URL is refused and changes nothing.  When
    the form has no [urls] field, or its text is empty or made of white
    space only, the answer is an error with status 400, whoever holds the
    lock: no task is registered and no thread is started. *)
Theorem blank_submission_rejected
    (uuid4 : string) (urls_text : option string) (w : world) :
  all_chars PyStr.is_space (default "" urls_text) = true →
  ∃ error,
    request_scrape uuid4 urls_text w = Return (SubmitError error 400, None) w.
Proof.
  intros Hblank. unfold request_scrape. destruct urls_text as [text|]; [|by eexists].
  case_bool_decide; [by eexists|].
  cbn [default] in Hblank. rewrite (strip_blank text Hblank).
  cbn [PyStr.splitlines PyStr.splitlines_go prepare_urls].
  rewrite bool_decide_eq_true_2 by done. by eexists.
Qed.

(** An instance of X17: a text of blanks and line ends. *)
Lemma blank_submission_rejected_witness :
  all_chars PyStr.is_space
    (default "" (Some (String (ascii_of_nat 32) (String (ascii_of_nat 10) " "))))
  = true
  ∧ ∃ error,
      request_scrape "t1"
        (Some (String (ascii_of_nat 32) (String (ascii_of_nat 10) " ")))
        (Sample.world0 "t0" [])
      = Return (SubmitError error 400, None) (Sample.world0 "t0" []).
Proof.
  split; [reflexivity|].
  exact (blank_submission_rejected "t1"
           (Some (String (ascii_of_nat 32) (String (ascii_of_nat 10) " ")))
           (Sample.world0 "t0" []) eq_refl).
Defined.

(** X18: every other submission is accepted.  With the lock free, a text
    with a character that is not white space gets the id drawn for it: the
    registry gains, under that id, a pending task whose log is the line
    [Task initiated.], and nothing else changes; the thread is started on
    the same id and the same sites, of which there is at least one, each
    non-empty and starting with [http://] or [https://]; and an observer
    that polls next receives that one line and waits. *)
Theorem submission_registers_task
    (uuid4 text : string) (w : world) :
  tasks_lock w = false →
  all_chars PyStr.is_space text = false →
  ∃ sites,
    request_scrape uuid4 (Some text) w
    = Return (SubmitAccepted uuid4, Some (uuid4, sites))
        (World (<[uuid4 := new_task sites]> (tasks w)) false (requests w)
           (files w) (logging w))
    ∧ sites ≠ []
    ∧ Forall (λ url, url ≠ ""
                     ∧ (PyStr.startswith "http://" url = true
                        ∨ PyStr.startswith "https://" url = true)) sites
    ∧ progress_stream uuid4
        [World (<[uuid4 := new_task sites]> (tasks w)) false (requests w)
           (files w) (logging w)]
      = ([sse "Task initiated."], Waiting 0).
Proof.
  intros Hlock Htext.
  exists (prepare_urls (PyStr.splitlines (PyStr.strip text))).
  assert (prepare_urls (PyStr.splitlines (PyStr.strip text)) ≠ []) as Hsites.
  { apply prepare_urls_nonblank, splitlines_nonblank, strip_nonblank, Htext. }
  split; [|split; [done|split; [apply prepare_urls_schemes|]]].
  - unfold request_scrape.
    rewrite bool_decide_eq_false_2 by (by intros ->).
    rewrite (bool_decide_eq_false_2 _ Hsites).
    unfold bind, with_tasks_lock, modify, ret. rewrite Hlock. by destruct w.
  - unfold progress_stream. cbn [generate_from]. unfold poll.
    cbn [tasks_lock tasks]. by rewrite lookup_insert_eq.
Qed.

(** An instance of X18: two lines, the second without a scheme. *)
Lemma submission_registers_task_witness :
  tasks_lock (Sample.world0 "t0" []) = false
  ∧ all_chars PyStr.is_space
      ("http://site.org" +:+ String (ascii_of_nat 10) " nowhere.org ") = false
  ∧ ∃ sites,
      request_scrape "t1"
        (Some ("http://site.org" +:+ String (ascii_of_nat 10) " nowhere.org "))
        (Sample.world0 "t0" [])
      = Return (SubmitAccepted "t1", Some ("t1", sites))
          (World (<["t1" := new_task sites]> (tasks (Sample.world0 "t0" [])))
             false [] ∅ [])
      ∧ sites ≠ [].
Proof.
  split; [reflexivity|]. split; [reflexivity|].
  destruct (submission_registers_task "t1"
              ("http://site.org" +:+ String (ascii_of_nat 10) " nowhere.org ")
              (Sample.world0 "t0" []) eq_refl eq_refl)
    as (sites & Hrun & Hsites & _).
  exists sites. split; [exact Hrun|exact Hsites].
Defined.
